(** * A CRM canister: customers, interactions and purchases

    Shallow embedding of [src/dfinity_js_backend/src/index.ts] and the
    properties its specification states about it.

    Conventions of the embedding:
    - Candid [text] is a [string]: the sequence of the bytes of its UTF-8
      encoding; the identifiers, hexadecimal digits and punctuation the code
      inspects are ASCII;
    - [String.prototype.toLowerCase], whose case mapping is Unicode's, is a
      parameter of the two handlers that call it, as the digest is of the
      identifier generator; what is assumed of it is stated where it is used;
    - Candid [nat] is [N]; a [Uint8Array] is a [list byte];
    - a [StableBTreeMap] keyed by [text] is a [gmap string _]: [get] is
      lookup, [insert] is insertion with replacement, [remove] is deletion,
      [values] lists the stored records;
    - a handler is a function of the stores; an [update] handler also
      returns the stores it leaves behind;
    - the clock and the random source read by [generateUUID] are an explicit
      argument of every handler that draws an identifier;
    - the stores of the canister are those a sequence of [update] calls
      produces from the empty maps ([reachable]). *)

From Stdlib Require Import ZArith NArith List Bool Lia.
From Stdlib.Strings Require Import String Ascii Byte.
From stdpp Require Import base option list gmap strings.

(** String concatenation computes by [simpl] in the proofs below. *)
#[local] Arguments String.append !s1 s2 : simpl nomatch.

(** ** The SHA-256 digest of the [js-sha256] package

    The source imports [sha256] from the package [js-sha256]; the canister
    only relies on [sha256.create().update(s).digest()] being an array of 32
    bytes.  The handlers below take the digest function as a parameter; this
    module gives the FIPS 180-4 function, which instantiates the parameter
    wherever a handler is run on a concrete input. *)
Module SHA256.

Local Open Scope Z_scope.

Definition w32 (x : Z) : Z := x mod 4294967296.

Definition add32 (x y : Z) : Z := w32 (x + y).

Definition rotr (n x : Z) : Z :=
  Z.lor (Z.shiftr x n) (w32 (Z.shiftl x (32 - n))).

Definition not32 (x : Z) : Z := 4294967295 - x.

Definition Ch (x y z : Z) : Z :=
  Z.lxor (Z.land x y) (Z.land (not32 x) z).

Definition Maj (x y z : Z) : Z :=
  Z.lxor (Z.lxor (Z.land x y) (Z.land x z)) (Z.land y z).

Definition Sigma0 (x : Z) : Z :=
  Z.lxor (Z.lxor (rotr 2 x) (rotr 13 x)) (rotr 22 x).

Definition Sigma1 (x : Z) : Z :=
  Z.lxor (Z.lxor (rotr 6 x) (rotr 11 x)) (rotr 25 x).

Definition sigma0 (x : Z) : Z :=
  Z.lxor (Z.lxor (rotr 7 x) (rotr 18 x)) (Z.shiftr x 3).

Definition sigma1 (x : Z) : Z :=
  Z.lxor (Z.lxor (rotr 17 x) (rotr 19 x)) (Z.shiftr x 10).

(** The constants of FIPS 180-4 are fractional parts of roots of the first
    primes: 32 bits of the cube roots of the first 64 primes for the round
    constants, of the square roots of the first 8 for the initial state. *)
Definition isPrime (n : nat) : bool :=
  forallb (fun d => negb (n mod d =? 0)%nat) (seq 2 (n - 2)).

Definition primes : list Z :=
  map Z.of_nat (List.filter isPrime (seq 2 310)).

(** The integer cube root of a number below [2 ^ 105], bit by bit. *)
Definition cbrt (n : Z) : Z :=
  fold_left
    (fun r k => let r' := r + Z.shiftl 1 (Z.of_nat k) in
                if r' * r' * r' <=? n then r' else r)
    (rev (seq 0 35)) 0.

Definition K : list Z :=
  Eval vm_compute in map (fun p => w32 (cbrt (p * 2 ^ 96))) primes.

(** The eight working words. *)
Record hstate : Type := HState {
  ha : Z; hb : Z; hc : Z; hd : Z; he : Z; hf : Z; hg : Z; hh : Z
}.

Definition fracSqrt (p : Z) : Z := w32 (Z.sqrt (p * 2 ^ 64)).

Definition H0 : hstate :=
  Eval vm_compute in
    HState (fracSqrt 2) (fracSqrt 3) (fracSqrt 5) (fracSqrt 7)
           (fracSqrt 11) (fracSqrt 13) (fracSqrt 17) (fracSqrt 19).

(** Message padding: a [1] bit, zeros up to 56 modulo 64, then the length in
    bits as a 64-bit big-endian integer. *)
Definition be_bytes (width : nat) (x : Z) : list Z :=
  map (fun i => Z.land (Z.shiftr x (8 * Z.of_nat i)) 255) (rev (seq 0 width)).

Definition pad (msg : list Z) : list Z :=
  let len := Z.of_nat (length msg) in
  let zeros := Z.to_nat ((55 - len) mod 64) in
  msg ++ 128 :: repeat 0 zeros ++ be_bytes 8 (8 * len).

Fixpoint be_words (n : nat) (bs : list Z) : list Z :=
  match n, bs with
  | S n', b0 :: b1 :: b2 :: b3 :: rest =>
      (Z.shiftl b0 24 + Z.shiftl b1 16 + Z.shiftl b2 8 + b3) :: be_words n' rest
  | _, _ => []
  end.

(** The message schedule, extended from 16 to 64 words. *)
Fixpoint extend (n : nat) (w : list Z) : list Z :=
  match n with
  | O => w
  | S n' =>
      let t := length w in
      let at_back k := nth (t - k) w 0 in
      extend n' (w ++ [add32 (add32 (sigma1 (at_back 2%nat)) (at_back 7%nat))
                             (add32 (sigma0 (at_back 15%nat)) (at_back 16%nat))])
  end.

Definition round (s : hstate) (kw : Z * Z) : hstate :=
  let t1 := add32 (add32 (add32 (hh s) (Sigma1 (he s)))
                         (add32 (Ch (he s) (hf s) (hg s)) (fst kw))) (snd kw) in
  let t2 := add32 (Sigma0 (ha s)) (Maj (ha s) (hb s) (hc s)) in
  HState (add32 t1 t2) (ha s) (hb s) (hc s) (add32 (hd s) t1) (he s) (hf s) (hg s).

Definition compress (s : hstate) (block : list Z) : hstate :=
  let w := extend 48 (be_words 16 block) in
  let r := fold_left round (combine K w) s in
  HState (add32 (ha s) (ha r)) (add32 (hb s) (hb r))
         (add32 (hc s) (hc r)) (add32 (hd s) (hd r))
         (add32 (he s) (he r)) (add32 (hf s) (hf r))
         (add32 (hg s) (hg r)) (add32 (hh s) (hh r)).

Fixpoint blocks (n : nat) (s : hstate) (bs : list Z) : hstate :=
  match n with
  | O => s
  | S n' => blocks n' (compress s (firstn 64 bs)) (skipn 64 bs)
  end.

Definition byte_of_Z (x : Z) : byte :=
  match Byte.of_N (Z.to_N (x mod 256)) with
  | Some b => b
  | None => x00
  end.

Definition word_bytes (x : Z) : list byte := map byte_of_Z (be_bytes 4 x).

Definition string_bytes (s : string) : list Z :=
  map (fun c => Z.of_N (N_of_ascii c)) (list_ascii_of_string s).

(** [sha256.create().update(s).digest()] *)
Definition digest (s : string) : list byte :=
  let m := pad (string_bytes s) in
  let r := blocks (length m / 64) H0 m in
  word_bytes (ha r) ++ word_bytes (hb r) ++ word_bytes (hc r) ++ word_bytes (hd r)
  ++ word_bytes (he r) ++ word_bytes (hf r) ++ word_bytes (hg r) ++ word_bytes (hh r).

End SHA256.

(** ** JavaScript string and number helpers used by the source *)

(** Character codes. *)
Definition code (c : ascii) : N := N_of_ascii c.

Definition inRange (lo hi c : ascii) : bool :=
  (code lo <=? code c)%N && (code c <=? code hi)%N.

(** The ASCII case mappings of a character; the flag [i] of a regular
    expression compares characters through them. *)
Definition toUpperChar (c : ascii) : ascii :=
  if inRange "a" "z" c then ascii_of_N (code c - 32) else c.

Definition toLowerChar (c : ascii) : ascii :=
  if inRange "A" "Z" c then ascii_of_N (code c + 32) else c.

(** The lower-case form of a string over ASCII: [A]-[Z] become [a]-[z] and
    every other character stays.  On ASCII text this is what
    [String.prototype.toLowerCase] returns; the built-in itself, with its
    Unicode mappings, is the parameter [String_prototype_toLowerCase] of the
    canister. *)
Fixpoint toLowerCase (s : string) : string :=
  match s with
  | EmptyString => EmptyString
  | String c r => String (toLowerChar c) (toLowerCase r)
  end.

(** [s.substr(start, len)] for a start inside the string. *)
Definition substr (start len : nat) (s : string) : string :=
  String.substring start len s.

(** The first [n] characters of [filler] repeated; [cur] is what is left of
    the copy being read. *)
Fixpoint repeatTo (n : nat) (cur filler : string) : string :=
  match n with
  | O => EmptyString
  | S n' =>
      match cur with
      | String c r => String c (repeatTo n' r filler)
      | EmptyString =>
          match filler with
          | String c r => String c (repeatTo n' r filler)
          | EmptyString => EmptyString
          end
      end
  end.

(** [s.padStart(targetLength, padString)] *)
Definition padStart (targetLength : nat) (padString s : string) : string :=
  repeatTo (targetLength - String.length s) padString padString +:+ s.

Definition hexDigit (d : N) : ascii :=
  match String.get (N.to_nat d) "0123456789abcdef" with
  | Some c => c
  | None => "0"%char
  end.

Fixpoint toString16_digits (fuel : nat) (n : N) (acc : string) : string :=
  match fuel with
  | O => acc
  | S fuel' =>
      let acc' := String (hexDigit (n mod 16)) acc in
      if (n / 16 =? 0)%N then acc' else toString16_digits fuel' (n / 16) acc'
  end.

(** [n.toString(16)] for a non-negative integer: the number of bits of [n]
    bounds the number of its hexadecimal digits. *)
Definition toString16 (n : N) : string :=
  toString16_digits (S (N.to_nat (N.log2 n))) n EmptyString.

(** [Array.from(bytes).map(b => b.toString(16).padStart(2, "0")).join("")] *)
Definition hexOfByte (b : byte) : string :=
  padStart 2 "0" (toString16 (Byte.to_N b)).

Definition hexOfBytes (bytes : list byte) : string :=
  String.concat "" (map hexOfByte bytes).

(** ** The regular expressions of the source

    [isValidUUID] tests its argument against the literal
    [/^[a-f\d]{8}-[a-f\d]{4}-[a-f\d]{4}-[a-f\d]{4}-[a-f\d]{12}$/i].
    The fragment needed is: a sequence of terms [atom{n}] between [^] and
    [$], where an atom is a character or a class of ranges and [\d], and the
    flag [i]. *)
Module RegExp.

Inductive ClassItem : Type :=
| ClassRange (lo hi : ascii)
| ClassDigit.

Inductive Atom : Type :=
| AtomChar (c : ascii)
| AtomClass (items : list ClassItem).

(** [atom{count}]; a bare atom has count 1. *)
Record Term : Type := Quantified { atom : Atom; count : nat }.

(** [/^ terms $/] with or without the flag [i]. *)
Record t : Type := Anchored { terms : list Term; ignoreCase : bool }.

Definition itemMatches (c : ascii) (i : ClassItem) : bool :=
  match i with
  | ClassRange lo hi => inRange lo hi c
  | ClassDigit => inRange "0" "9" c
  end.

(** Under [i] a character matches when one of its case variants does. *)
Definition candidates (ic : bool) (c : ascii) : list ascii :=
  if ic then [c; toUpperChar c; toLowerChar c] else [c].

Definition atomMatches (ic : bool) (a : Atom) (c : ascii) : bool :=
  match a with
  | AtomChar x => existsb (Ascii.eqb x) (candidates ic c)
  | AtomClass items =>
      existsb (fun c' => existsb (itemMatches c') items) (candidates ic c)
  end.

(** Consume exactly [n] characters matching [a]; the rest of the input. *)
Fixpoint matchTerm (ic : bool) (a : Atom) (n : nat) (s : string) : option string :=
  match n with
  | O => Some s
  | S n' =>
      match s with
      | String c r => if atomMatches ic a c then matchTerm ic a n' r else None
      | EmptyString => None
      end
  end.

Fixpoint matchTerms (ic : bool) (ts : list Term) (s : string) : bool :=
  match ts with
  | [] => match s with EmptyString => true | String _ _ => false end
  | tm :: ts' =>
      match matchTerm ic (atom tm) (count tm) s with
      | Some r => matchTerms ic ts' r
      | None => false
      end
  end.

(** [re.test(s)] *)
Definition test (re : t) (s : string) : bool :=
  matchTerms (ignoreCase re) (terms re) s.

End RegExp.

Definition hexClass : RegExp.Atom :=
  RegExp.AtomClass [RegExp.ClassRange "a" "f"; RegExp.ClassDigit].

Definition dash : RegExp.Term := RegExp.Quantified (RegExp.AtomChar "-") 1.

Definition uuidRegex : RegExp.t :=
  RegExp.Anchored
    [ RegExp.Quantified hexClass 8; dash;
      RegExp.Quantified hexClass 4; dash;
      RegExp.Quantified hexClass 4; dash;
      RegExp.Quantified hexClass 4; dash;
      RegExp.Quantified hexClass 12 ]
    true.

(** [isValidUUID(uuid)] *)
Definition isValidUUID (uuid : string) : bool := RegExp.test uuidRegex uuid.

(** What [generateUUID] reads from its environment: [new Date().toISOString()]
    and [crypto.getRandomValues(new Uint8Array(32))]. *)
Record Entropy : Type := MkEntropy {
  timestamp : string;
  randomBytes : list byte
}.

(** ** Data model *)

Module Interaction.
Record t : Type := Make {
  id : string;
  date : string;
  interaction_type : string;
  description : string;
  status : string;
  comments : string
}.
End Interaction.

Module Purchase.
Record t : Type := Make {
  id : string;
  date : string;
  product : string;
  quantity : N;
  price : N
}.
End Purchase.

Module Customer.
Record t : Type := Make {
  id : string;
  name : string;
  company : string;
  email : string;
  phone : string;
  interactions : list Interaction.t;
  purchases : list Purchase.t
}.
End Customer.

Module CustomerPayload.
Record t : Type := Make {
  name : string;
  company : string;
  email : string;
  phone : string
}.
End CustomerPayload.

Module InteractionPayload.
Record t : Type := Make {
  date : string;
  interaction_type : string;
  description : string;
  status : string;
  comments : string
}.
End InteractionPayload.

Module PurchasePayload.
Record t : Type := Make {
  date : string;
  product : string;
  quantity : N;
  price : N
}.
End PurchasePayload.

Inductive Message : Type :=
| NotFound (msg : string)
| InvalidPayload (msg : string)
| InternalError (msg : string).

Inductive Result (T : Type) : Type :=
| Ok (value : T)
| Err (error : Message).

Arguments Ok {T} value.
Arguments Err {T} error.

(** The three stable maps: [customerStorage], [interactionStorage] and
    [purchaseStorage]. *)
Record Storage : Type := MkStorage {
  customerStorage : gmap string Customer.t;
  interactionStorage : gmap string Interaction.t;
  purchaseStorage : gmap string Purchase.t
}.

Definition emptyStorage : Storage := MkStorage ∅ ∅ ∅.

Definition withCustomers (m : gmap string Customer.t) (st : Storage) : Storage :=
  MkStorage m (interactionStorage st) (purchaseStorage st).

Definition withInteractions (m : gmap string Interaction.t) (st : Storage) : Storage :=
  MkStorage (customerStorage st) m (purchaseStorage st).

Definition withPurchases (m : gmap string Purchase.t) (st : Storage) : Storage :=
  MkStorage (customerStorage st) (interactionStorage st) m.

(** [map.values()].  The records are listed in the order in which the map
    enumerates its entries; the stable map of the code lists them by
    ascending key.  The properties below depend on which records are listed
    and how many, not on their order. *)
Definition values {V : Type} (m : gmap string V) : list V := (map_to_list m).*2.

(** [map.containsKey(k)] *)
Definition containsKey {V : Type} (m : gmap string V) (k : string) : bool :=
  match m !! k with Some _ => true | None => false end.

(** [Object.keys(payload)] of a decoded Candid record: its field names. *)
Class JsObject (A : Type) : Type := objectKeys : A -> list string.

#[global] Instance CustomerPayload_object : JsObject CustomerPayload.t :=
  fun _ => ["name"; "company"; "email"; "phone"].

#[global] Instance InteractionPayload_object : JsObject InteractionPayload.t :=
  fun _ => ["date"; "interaction_type"; "description"; "status"; "comments"].

#[global] Instance PurchasePayload_object : JsObject PurchasePayload.t :=
  fun _ => ["date"; "product"; "quantity"; "price"].

(** [isValidPayload(payload)]: [typeof payload === "object"] holds of every
    record, which leaves [Object.keys(payload).length > 0]. *)
Definition isValidPayload {A : Type} `{JsObject A} (payload : A) : bool :=
  (0 <? length (objectKeys payload))%nat.

(** ** The canister *)

Section Canister.

(** [sha256.create().update(s).digest()] of [js-sha256]. *)
Variable sha256_digest : string -> list byte.

(** [s.toLowerCase()], the built-in of the language. *)
Variable String_prototype_toLowerCase : string -> string.

(** [generateUUID()].  [hashBytes[16]] is read as a number; an index past
    the end would read [undefined], which [&] turns into 0. *)
Definition generateUUID (e : Entropy) : string :=
  let randomBytesString := hexOfBytes (randomBytes e) in
  let hashBytes := sha256_digest (timestamp e +:+ randomBytesString) in
  let hashBytesString := hexOfBytes hashBytes in
  substr 0 8 hashBytesString +:+ "-" +:+
  substr 8 4 hashBytesString +:+ "-4" +:+
  substr 13 3 hashBytesString +:+ "-" +:+
  padStart 2 "0"
    (toString16 (N.lor (N.land (nth 16 (map Byte.to_N hashBytes) 0%N) 0x3f) 0x80))
    +:+ substr 17 2 hashBytesString +:+ "-" +:+
  substr 20 12 hashBytesString.


(** *** Customers *)

Definition getCustomers (st : Storage) : list Customer.t :=
  values (customerStorage st).

Definition getCustomer (id : string) (st : Storage) : Result Customer.t :=
  if negb (isValidUUID id) then Err (InvalidPayload "Invalid UUID")
  else
    match customerStorage st !! id with
    | None => Err (NotFound ("Customer with id=" +:+ id +:+ " not found"))
    | Some customer => Ok customer
    end.

(** A [CustomerPayload] has no field [id], so spreading it after [id] leaves
    the generated identifier in place. *)
Definition addCustomer (e : Entropy) (payload : CustomerPayload.t) (st : Storage)
  : Result Customer.t * Storage :=
  if negb (isValidPayload payload) then (Err (InvalidPayload "Invalid payload"), st)
  else
    let customer :=
      Customer.Make (generateUUID e)
        (CustomerPayload.name payload) (CustomerPayload.company payload)
        (CustomerPayload.email payload) (CustomerPayload.phone payload)
        [] [] in
    (Ok customer,
     withCustomers (<[Customer.id customer := customer]> (customerStorage st)) st).

Definition updateCustomer (payload : Customer.t) (st : Storage)
  : Result Customer.t * Storage :=
  if negb (containsKey (customerStorage st) (Customer.id payload)) then
    (Err (NotFound ("Customer with id=" +:+ Customer.id payload +:+ " not found")), st)
  else
    (Ok payload,
     withCustomers (<[Customer.id payload := payload]> (customerStorage st)) st).

(** [remove] runs before its result is inspected. *)
Definition deleteCustomer (id : string) (st : Storage) : Result string * Storage :=
  if negb (isValidUUID id) then (Err (InvalidPayload "Invalid UUID"), st)
  else
    let deletedCustomerOpt := customerStorage st !! id in
    let st' := withCustomers (delete id (customerStorage st)) st in
    match deletedCustomerOpt with
    | None => (Err (NotFound ("Customer with id=" +:+ id +:+ " not found")), st')
    | Some deleted => (Ok (Customer.id deleted), st')
    end.

(** *** Interactions *)

(** [customer.interactions.push(interaction)] on the record read from the
    store. *)
Definition pushInteraction (c : Customer.t) (i : Interaction.t) : Customer.t :=
  Customer.Make (Customer.id c) (Customer.name c) (Customer.company c)
    (Customer.email c) (Customer.phone c)
    (Customer.interactions c ++ [i]) (Customer.purchases c).

Definition addInteraction (e : Entropy) (customerId : string)
    (payload : InteractionPayload.t) (st : Storage) : Result string * Storage :=
  if negb (isValidUUID customerId) then
    (Err (InvalidPayload "Invalid customer UUID"), st)
  else if negb (isValidPayload payload) then
    (Err (InvalidPayload "Invalid payload"), st)
  else
    let interaction :=
      Interaction.Make (generateUUID e)
        (InteractionPayload.date payload)
        (InteractionPayload.interaction_type payload)
        (InteractionPayload.description payload)
        (InteractionPayload.status payload)
        (InteractionPayload.comments payload) in
    match customerStorage st !! customerId with
    | None =>
        (Err (NotFound ("Customer with id=" +:+ customerId +:+ " not found")), st)
    | Some found =>
        let customer := pushInteraction found interaction in
        (Ok (Interaction.id interaction),
         MkStorage
           (<[Customer.id customer := customer]> (customerStorage st))
           (<[Interaction.id interaction := interaction]> (interactionStorage st))
           (purchaseStorage st))
    end.

Definition getCustomerInteractions (customerId : string) (st : Storage)
  : list Interaction.t :=
  if negb (isValidUUID customerId) then []
  else
    match customerStorage st !! customerId with
    | None => []
    | Some customer => Customer.interactions customer
    end.

Definition getInteraction (id : string) (st : Storage) : Result Interaction.t :=
  if negb (isValidUUID id) then Err (InvalidPayload "Invalid UUID")
  else
    match interactionStorage st !! id with
    | None => Err (NotFound ("Interaction with id=" +:+ id +:+ " not found"))
    | Some interaction => Ok interaction
    end.

Definition updateInteraction (payload : Interaction.t) (st : Storage)
  : Result Interaction.t * Storage :=
  if negb (containsKey (interactionStorage st) (Interaction.id payload)) then
    (Err (NotFound ("Interaction with id=" +:+ Interaction.id payload +:+ " not found")),
     st)
  else
    (Ok payload,
     withInteractions
       (<[Interaction.id payload := payload]> (interactionStorage st)) st).

Definition deleteInteraction (id : string) (st : Storage) : Result string * Storage :=
  if negb (isValidUUID id) then (Err (InvalidPayload "Invalid UUID"), st)
  else
    let deletedInteractionOpt := interactionStorage st !! id in
    let st' := withInteractions (delete id (interactionStorage st)) st in
    match deletedInteractionOpt with
    | None => (Err (NotFound ("Interaction with id=" +:+ id +:+ " not found")), st')
    | Some deleted => (Ok (Interaction.id deleted), st')
    end.

Definition filterByStatus (status : string) (st : Storage) : list Interaction.t :=
  List.filter
    (fun interaction =>
       String.eqb (String_prototype_toLowerCase (Interaction.status interaction))
                  (String_prototype_toLowerCase status))
    (values (interactionStorage st)).

(** *** Purchases *)

(** [customer.purchases.push(purchase)] on the record read from the store. *)
Definition pushPurchase (c : Customer.t) (p : Purchase.t) : Customer.t :=
  Customer.Make (Customer.id c) (Customer.name c) (Customer.company c)
    (Customer.email c) (Customer.phone c)
    (Customer.interactions c) (Customer.purchases c ++ [p]).

Definition addPurchase (e : Entropy) (customerId : string)
    (payload : PurchasePayload.t) (st : Storage) : Result string * Storage :=
  if negb (isValidUUID customerId) then
    (Err (InvalidPayload "Invalid customer UUID"), st)
  else if negb (isValidPayload payload) then
    (Err (InvalidPayload "Invalid payload"), st)
  else
    let purchase :=
      Purchase.Make (generateUUID e)
        (PurchasePayload.date payload) (PurchasePayload.product payload)
        (PurchasePayload.quantity payload) (PurchasePayload.price payload) in
    match customerStorage st !! customerId with
    | None =>
        (Err (NotFound ("Customer with id=" +:+ customerId +:+ " not found")), st)
    | Some found =>
        let customer := pushPurchase found purchase in
        (Ok (Purchase.id purchase),
         MkStorage
           (<[Customer.id customer := customer]> (customerStorage st))
           (interactionStorage st)
           (<[Purchase.id purchase := purchase]> (purchaseStorage st)))
    end.

Definition getCustomerPurchases (customerId : string) (st : Storage)
  : list Purchase.t :=
  if negb (isValidUUID customerId) then []
  else
    match customerStorage st !! customerId with
    | None => []
    | Some customer => Customer.purchases customer
    end.

Definition getPurchase (id : string) (st : Storage) : Result Purchase.t :=
  if negb (isValidUUID id) then Err (InvalidPayload "Invalid UUID")
  else
    match purchaseStorage st !! id with
    | None => Err (NotFound ("Purchase with id=" +:+ id +:+ " not found"))
    | Some purchase => Ok purchase
    end.

Definition updatePurchase (payload : Purchase.t) (st : Storage)
  : Result Purchase.t * Storage :=
  if negb (containsKey (purchaseStorage st) (Purchase.id payload)) then
    (Err (NotFound ("Purchase with id=" +:+ Purchase.id payload +:+ " not found")), st)
  else
    (Ok payload,
     withPurchases (<[Purchase.id payload := payload]> (purchaseStorage st)) st).

Definition deletePurchase (id : string) (st : Storage) : Result string * Storage :=
  if negb (isValidUUID id) then (Err (InvalidPayload "Invalid UUID"), st)
  else
    let deletedPurchaseOpt := purchaseStorage st !! id in
    let st' := withPurchases (delete id (purchaseStorage st)) st in
    match deletedPurchaseOpt with
    | None => (Err (NotFound ("Purchase with id=" +:+ id +:+ " not found")), st')
    | Some deleted => (Ok (Purchase.id deleted), st')
    end.

Definition getPurchasesByDate (date : string) (st : Storage) : list Purchase.t :=
  List.filter
    (fun purchase =>
       String.eqb (String_prototype_toLowerCase (Purchase.date purchase))
                  (String_prototype_toLowerCase date))
    (values (purchaseStorage st)).

(** *** Runs of the canister

    The calls that change the stores; the [query] handlers above return no
    store. *)
Inductive Call : Type :=
| CallAddCustomer (e : Entropy) (payload : CustomerPayload.t)
| CallUpdateCustomer (payload : Customer.t)
| CallDeleteCustomer (id : string)
| CallAddInteraction (e : Entropy) (customerId : string) (payload : InteractionPayload.t)
| CallUpdateInteraction (payload : Interaction.t)
| CallDeleteInteraction (id : string)
| CallAddPurchase (e : Entropy) (customerId : string) (payload : PurchasePayload.t)
| CallUpdatePurchase (payload : Purchase.t)
| CallDeletePurchase (id : string).

Definition exec (c : Call) (st : Storage) : Storage :=
  match c with
  | CallAddCustomer e payload => snd (addCustomer e payload st)
  | CallUpdateCustomer payload => snd (updateCustomer payload st)
  | CallDeleteCustomer id => snd (deleteCustomer id st)
  | CallAddInteraction e customerId payload => snd (addInteraction e customerId payload st)
  | CallUpdateInteraction payload => snd (updateInteraction payload st)
  | CallDeleteInteraction id => snd (deleteInteraction id st)
  | CallAddPurchase e customerId payload => snd (addPurchase e customerId payload st)
  | CallUpdatePurchase payload => snd (updatePurchase payload st)
  | CallDeletePurchase id => snd (deletePurchase id st)
  end.

(** The stores a sequence of calls leads to, starting from empty maps. *)
Inductive reachable : Storage -> Prop :=
| reachable_empty : reachable emptyStorage
| reachable_exec (c : Call) (st : Storage) :
    reachable st -> reachable (exec c st).

End Canister.

(** ** Notions of the specification *)

(** A hexadecimal digit, in either case. *)
Definition isHexDigit (c : ascii) : bool :=
  inRange "0" "9" c || inRange "a" "f" c || inRange "A" "F" c.

Fixpoint stringForall (p : ascii -> bool) (s : string) : bool :=
  match s with
  | EmptyString => true
  | String c r => p c && stringForall p r
  end.

(** A group of [n] hexadecimal digits. *)
Definition hexGroup (n : nat) (g : string) : Prop :=
  String.length g = n /\ stringForall isHexDigit g = true.

(** The identifier format: five groups of 8, 4, 4, 4 and 12 hexadecimal
    digits separated by dashes. *)
Definition uuidGroups (s g1 g2 g3 g4 g5 : string) : Prop :=
  s = g1 +:+ "-" +:+ g2 +:+ "-" +:+ g3 +:+ "-" +:+ g4 +:+ "-" +:+ g5 /\
  hexGroup 8 g1 /\ hexGroup 4 g2 /\ hexGroup 4 g3 /\ hexGroup 4 g4 /\
  hexGroup 12 g5.

Definition uuidFormat (s : string) : Prop :=
  exists g1 g2 g3 g4 g5, uuidGroups s g1 g2 g3 g4 g5.

(** The two hexadecimal digits of a byte. *)
Definition hexHigh (b : byte) : ascii := hexDigit (Byte.to_N b / 16).
Definition hexLow (b : byte) : ascii := hexDigit (Byte.to_N b mod 16).

(** The two hexadecimal digits of [(b & 0x3f) | 0x80]. *)
Definition variantHigh (b : byte) : ascii :=
  hexDigit (N.lor (N.land (Byte.to_N b) 0x3f) 0x80 / 16).
Definition variantLow (b : byte) : ascii :=
  hexDigit (N.lor (N.land (Byte.to_N b) 0x3f) 0x80 mod 16).

(** Two characters equal up to ASCII case: the same character, or an
    upper-case letter and its lower-case form. *)
Definition caseVariants (a b : ascii) : bool :=
  Ascii.eqb a b
  || (inRange "A" "Z" a && (code b =? code a + 32)%N)
  || (inRange "A" "Z" b && (code a =? code b + 32)%N).

(** Two strings equal up to ASCII case. *)
Fixpoint equalUpToAsciiCase (s1 s2 : string) : bool :=
  match s1, s2 with
  | EmptyString, EmptyString => true
  | String a r1, String b r2 => caseVariants a b && equalUpToAsciiCase r1 r2
  | _, _ => false
  end.

(** A string of ASCII characters only. *)
Definition isAscii (s : string) : bool :=
  stringForall (fun c => (code c <? 128)%N) s.

(** What is assumed of [String.prototype.toLowerCase]: it gives equal
    results on strings that are equal up to ASCII case, and on ASCII text
    it maps [A]-[Z] to [a]-[z] and nothing else.  Both hold of the built-in:
    its mapping of a character does not depend on the case of the ASCII
    letters around it, and no ASCII character has a special mapping. *)
Definition ignoresAsciiCase (lower : string -> string) : Prop :=
  forall s1 s2, equalUpToAsciiCase s1 s2 = true -> lower s1 = lower s2.

Definition lowersAscii (lower : string -> string) : Prop :=
  forall s, isAscii s = true -> lower s = toLowerCase s.

(** Every key of a store is the [id] of the record stored under it. *)
Definition keysAreIds (st : Storage) : Prop :=
  (forall k c, customerStorage st !! k = Some c -> Customer.id c = k) /\
  (forall k i, interactionStorage st !! k = Some i -> Interaction.id i = k) /\
  (forall k p, purchaseStorage st !! k = Some p -> Purchase.id p = k).

(** Every key of the customer store has the identifier format. *)
Definition customerKeysValid (st : Storage) : Prop :=
  forall k c, customerStorage st !! k = Some c -> isValidUUID k = true.

(** The record [addInteraction] builds from a payload and a fresh id. *)
Definition interactionOf (id : string) (payload : InteractionPayload.t)
  : Interaction.t :=
  Interaction.Make id
    (InteractionPayload.date payload)
    (InteractionPayload.interaction_type payload)
    (InteractionPayload.description payload)
    (InteractionPayload.status payload)
    (InteractionPayload.comments payload).

(** ** A worked run: the data of the examples below *)

(** The customer of the specification's example, and two readings of the
    clock and the random source. *)
Definition acme : CustomerPayload.t :=
  CustomerPayload.Make "Acme" "Acme Co" "a@acme.com" "555-0100".

Definition entropy1 : Entropy :=
  MkEntropy "2024-01-01T00:00:00.000Z" (repeat x00 32).

Definition entropy2 : Entropy :=
  MkEntropy "2024-01-01T00:00:01.500Z" (repeat xff 32).

Definition acmeId : string := Eval vm_compute in generateUUID SHA256.digest entropy1.

Definition acmeStore : Storage :=
  exec SHA256.digest (CallAddCustomer entropy1 acme) emptyStorage.

(** The stored Acme customer, renamed. *)
Definition acmeRenamed : Customer.t :=
  Customer.Make acmeId "Acme Ltd" "Acme Co" "sales@acme.com" "555-0199" [] [].

(** A customer record whose id is in no store. *)
Definition stranger : Customer.t :=
  Customer.Make "00000000-0000-4000-8000-000000000000" "Nobody" "" "" "" [] [].

Definition firstContact : InteractionPayload.t :=
  InteractionPayload.Make "2024-01-02" "call" "Intro call" "Open" "none".

Definition callId : string := Eval vm_compute in generateUUID SHA256.digest entropy2.

(** The store after Acme's first interaction. *)
Definition acmeWithCall : Storage :=
  exec SHA256.digest (CallAddInteraction entropy2 acmeId firstContact) acmeStore.

(** Acme's first interaction, closed. *)
Definition callClosed : Interaction.t :=
  Interaction.Make callId "2024-01-02" "call" "Intro call" "CLOSED" "done".

(** The store after the call is closed: the standalone record and the copy
    embedded in the customer differ. *)
Definition closedStore : Storage :=
  exec SHA256.digest (CallUpdateInteraction callClosed) acmeWithCall.

(** ** Notions used for the remaining handlers *)

Definition isErr {T : Type} (r : Result T) : bool :=
  match r with
  | Ok _ => false
  | Err _ => true
  end.

(** Whether a call answers with an error. *)
Definition callFails (sha256_digest : string -> list byte) (c : Call) (st : Storage)
  : bool :=
  match c with
  | CallAddCustomer e payload => isErr (fst (addCustomer sha256_digest e payload st))
  | CallUpdateCustomer payload => isErr (fst (updateCustomer payload st))
  | CallDeleteCustomer id => isErr (fst (deleteCustomer id st))
  | CallAddInteraction e customerId payload =>
      isErr (fst (addInteraction sha256_digest e customerId payload st))
  | CallUpdateInteraction payload => isErr (fst (updateInteraction payload st))
  | CallDeleteInteraction id => isErr (fst (deleteInteraction id st))
  | CallAddPurchase e customerId payload =>
      isErr (fst (addPurchase sha256_digest e customerId payload st))
  | CallUpdatePurchase payload => isErr (fst (updatePurchase payload st))
  | CallDeletePurchase id => isErr (fst (deletePurchase id st))
  end.

(** Every key of every store was returned by [generateUUID]. *)
Definition keysGenerated (sha256_digest : string -> list byte) (st : Storage) : Prop :=
  (forall k c, customerStorage st !! k = Some c ->
               exists e, k = generateUUID sha256_digest e) /\
  (forall k i, interactionStorage st !! k = Some i ->
               exists e, k = generateUUID sha256_digest e) /\
  (forall k p, purchaseStorage st !! k = Some p ->
               exists e, k = generateUUID sha256_digest e).

(** [k] is a key of one of the three stores. *)
Definition isKey (k : string) (st : Storage) : Prop :=
  is_Some (customerStorage st !! k) \/
  is_Some (interactionStorage st !! k) \/
  is_Some (purchaseStorage st !! k).

(** The record [addPurchase] builds from a payload and a fresh id. *)
Definition purchaseOf (id : string) (payload : PurchasePayload.t) : Purchase.t :=
  Purchase.Make id
    (PurchasePayload.date payload) (PurchasePayload.product payload)
    (PurchasePayload.quantity payload) (PurchasePayload.price payload).

(** The worked run, continued with a purchase. *)
Definition firstOrder : PurchasePayload.t :=
  PurchasePayload.Make "2024-01-03" "Anvil" 2 150.

Definition entropy3 : Entropy :=
  MkEntropy "2024-01-03T09:30:00.000Z" (repeat x7f 32).

Definition orderId : string := Eval vm_compute in generateUUID SHA256.digest entropy3.

Definition acmeWithOrder : Storage :=
  exec SHA256.digest (CallAddPurchase entropy3 acmeId firstOrder) acmeWithCall.

Definition orderRevised : Purchase.t :=
  Purchase.Make orderId "2024-01-03" "Anvil" 3 140.

(** The value of a lower-case hexadecimal digit (0 for any other
    character); it reads the digits of [hexOfByte] back. *)
Definition hexValue (c : ascii) : N :=
  if inRange "0" "9" c then code c - code "0"
  else if inRange "a" "f" c then code c - code "a" + 10
  else 0.

(** A digest that differs from SHA-256 after its first 17 bytes. *)
Definition truncatedDigest (s : string) : list byte :=
  firstn 17 (SHA256.digest s) ++ repeat x00 15.

(** A second interaction and a purchase dated with a month name. *)
Definition secondContact : InteractionPayload.t :=
  InteractionPayload.Make "2024-01-05" "email" "Quote sent" "OPEN" "awaiting reply".

Definition entropy4 : Entropy :=
  MkEntropy "2024-01-05T14:00:00.000Z" (repeat x01 32).

Definition secondCallId : string :=
  Eval vm_compute in generateUUID SHA256.digest entropy4.

Definition janOrder : PurchasePayload.t :=
  PurchasePayload.Make "03-JAN-2024" "Hammer" 1 25.

Definition entropy5 : Entropy :=
  MkEntropy "2024-01-06T08:15:00.000Z" (repeat x02 32).

Definition janOrderId : string :=
  Eval vm_compute in generateUUID SHA256.digest entropy5.

(** The store after both interactions and both purchases; the first
    interaction is still open. *)
Definition busyStore : Storage :=
  exec SHA256.digest (CallAddPurchase entropy5 acmeId janOrder)
    (exec SHA256.digest (CallAddInteraction entropy4 acmeId secondContact)
       acmeWithOrder).

(** A lower-casing that goes beyond ASCII: it also maps the upper-case
    letters of Latin-1 (U+00C0 to U+00DE, but for the multiplication sign
    U+00D7), which UTF-8 writes as the byte 195 followed by a byte from 128
    to 158, to their lower-case forms, 32 further.  It is one more function
    that meets what is assumed of the built-in. *)
Definition lowerAfter195 (d : ascii) : ascii :=
  if inRange "128" "158" d && negb (Ascii.eqb d "151") then ascii_of_N (code d + 32)
  else toLowerChar d.

Fixpoint latin1ToLowerCase (s : string) : string :=
  match s with
  | EmptyString => EmptyString
  | String c r =>
      if Ascii.eqb c "195" then
        match r with
        | String d r' => String c (String (lowerAfter195 d) (latin1ToLowerCase r'))
        | EmptyString => String c EmptyString
        end
      else String (toLowerChar c) (latin1ToLowerCase r)
  end.

Definition etude : InteractionPayload.t :=
  InteractionPayload.Make "2024-01-07" "visit" "Site survey" "ÉTUDE" "".

Definition entropy6 : Entropy :=
  MkEntropy "2024-01-07T10:00:00.000Z" (repeat x03 32).

Definition etudeId : string := Eval vm_compute in generateUUID SHA256.digest entropy6.

Definition etudeStore : Storage :=
  exec SHA256.digest (CallAddInteraction entropy6 acmeId etude) acmeStore.

(** [acmeId] in upper case. *)
Definition acmeIdUpper : string := "B6B6FDBF-7C6C-4CBB-9BF6-9A401EF10D58".

(** ** The identifier validator *)

Lemma append_assoc (a b c : string) : (a +:+ b) +:+ c = a +:+ (b +:+ c).
Proof. induction a as [|x a IH]; simpl; [reflexivity | now rewrite IH]. Qed.

Lemma hexClass_isHexDigit (c : ascii) :
  RegExp.atomMatches true hexClass c = isHexDigit c.
Proof. destruct c as [[] [] [] [] [] [] [] []]; reflexivity. Qed.

Lemma dash_matches (c : ascii) :
  RegExp.atomMatches true (RegExp.AtomChar "-") c = true <-> c = "-"%char.
Proof.
  destruct c as [[] [] [] [] [] [] [] []]; vm_compute; split; congruence.
Qed.

(** [matchTerm] consumes a prefix of [n] matching characters, and only that. *)
Lemma matchTerm_Some ic a n s r :
  RegExp.matchTerm ic a n s = Some r <->
  exists g, s = g +:+ r /\ String.length g = n /\
            stringForall (RegExp.atomMatches ic a) g = true.
Proof.
  revert s. induction n as [|n IH]; intros s; simpl.
  - split.
    + intros [= ->]. exists EmptyString. auto.
    + intros (g & -> & Hlen & _). destruct g; [reflexivity | discriminate].
  - destruct s as [|c s].
    + split; [discriminate |].
      intros (g & Hs & Hlen & _). destruct g; discriminate.
    + destruct (RegExp.atomMatches ic a c) eqn:Hc.
      * rewrite IH. split.
        -- intros (g & -> & Hlen & Hall). exists (String c g). simpl.
           rewrite Hc, Hall, Hlen. auto.
        -- intros (g & Hs & Hlen & Hall). destruct g as [|c' g]; [discriminate |].
           simpl in *. injection Hs as -> ->. injection Hlen as Hlen.
           apply andb_true_iff in Hall as [_ Hall]. eauto.
      * split; [discriminate |].
        intros (g & Hs & Hlen & Hall). destruct g as [|c' g]; [discriminate |].
        simpl in *. injection Hs as -> ->. rewrite Hc in Hall. discriminate.
Qed.

Lemma matchTerms_cons ic tm ts s :
  RegExp.matchTerms ic (tm :: ts) s = true <->
  exists g r, s = g +:+ r /\ String.length g = RegExp.count tm /\
              stringForall (RegExp.atomMatches ic (RegExp.atom tm)) g = true /\
              RegExp.matchTerms ic ts r = true.
Proof.
  simpl. split.
  - destruct (RegExp.matchTerm ic (RegExp.atom tm) (RegExp.count tm) s) as [r|] eqn:Hm;
      [| discriminate].
    intros Hr. apply matchTerm_Some in Hm as (g & -> & Hlen & Hall). eauto 6.
  - intros (g & r & -> & Hlen & Hall & Hr).
    assert (RegExp.matchTerm ic (RegExp.atom tm) (RegExp.count tm) (g +:+ r) = Some r)
      as -> by (apply matchTerm_Some; eauto).
    exact Hr.
Qed.

Lemma stringForall_ext (p q : ascii -> bool) (s : string) :
  (forall c, p c = q c) -> stringForall p s = stringForall q s.
Proof. intros E. induction s as [|c s IH]; simpl; [reflexivity | now rewrite E, IH]. Qed.

Lemma hexClass_group n g :
  String.length g = n /\ stringForall (RegExp.atomMatches true hexClass) g = true <->
  hexGroup n g.
Proof.
  unfold hexGroup. now rewrite (stringForall_ext _ _ g hexClass_isHexDigit).
Qed.

Lemma dash_group g :
  String.length g = 1%nat /\
  stringForall (RegExp.atomMatches true (RegExp.AtomChar "-")) g = true <->
  g = "-".
Proof.
  split.
  - intros [Hlen Hall]. destruct g as [|c [|? ?]]; try discriminate.
    simpl in Hall. apply andb_true_iff in Hall as [Hc _].
    apply dash_matches in Hc as ->. reflexivity.
  - intros ->. split; reflexivity.
Qed.

(** The validator accepts exactly the strings of the identifier format. *)
Lemma isValidUUID_format (s : string) : isValidUUID s = true <-> uuidFormat s.
Proof.
  unfold isValidUUID, RegExp.test, uuidRegex, uuidFormat, uuidGroups, dash. simpl RegExp.terms.
  simpl RegExp.ignoreCase. split.
  - intros H.
    apply matchTerms_cons in H as (g1 & r1 & -> & L1 & A1 & H).
    apply matchTerms_cons in H as (d1 & r2 & -> & M1 & B1 & H).
    apply matchTerms_cons in H as (g2 & r3 & -> & L2 & A2 & H).
    apply matchTerms_cons in H as (d2 & r4 & -> & M2 & B2 & H).
    apply matchTerms_cons in H as (g3 & r5 & -> & L3 & A3 & H).
    apply matchTerms_cons in H as (d3 & r6 & -> & M3 & B3 & H).
    apply matchTerms_cons in H as (g4 & r7 & -> & L4 & A4 & H).
    apply matchTerms_cons in H as (d4 & r8 & -> & M4 & B4 & H).
    apply matchTerms_cons in H as (g5 & r9 & -> & L5 & A5 & H).
    simpl in *. destruct r9; [| discriminate].
    pose proof (proj1 (dash_group d1) (conj M1 B1)) as ->.
    pose proof (proj1 (dash_group d2) (conj M2 B2)) as ->.
    pose proof (proj1 (dash_group d3) (conj M3 B3)) as ->.
    pose proof (proj1 (dash_group d4) (conj M4 B4)) as ->.
    exists g1, g2, g3, g4, g5.
    refine (conj _ (conj _ (conj _ (conj _ (conj _ _)))));
      try (apply hexClass_group; split; assumption).
    do 8 f_equal. clear. induction g5; simpl; congruence.
  - intros (g1 & g2 & g3 & g4 & g5 & -> & G1 & G2 & G3 & G4 & G5).
    apply hexClass_group in G1 as [L1 A1], G2 as [L2 A2], G3 as [L3 A3],
      G4 as [L4 A4], G5 as [L5 A5].
    repeat (apply matchTerms_cons; eexists; eexists;
            split; [reflexivity | split; [first [eassumption | reflexivity] |
            split; [first [eassumption | reflexivity] |]]]).
    apply matchTerms_cons. exists g5, EmptyString.
    split; [clear; induction g5; simpl; congruence |].
    repeat split; assumption.
Qed.

(** ** The identifier generator *)

#[local] Arguments hexHigh : simpl never.
#[local] Arguments hexLow : simpl never.
#[local] Arguments variantHigh : simpl never.
#[local] Arguments variantLow : simpl never.

Lemma hexOfByte_digits (b : byte) :
  hexOfByte b = String (hexHigh b) (String (hexLow b) EmptyString).
Proof. destruct b; reflexivity. Qed.

Lemma variant_digits (b : byte) :
  padStart 2 "0" (toString16 (N.lor (N.land (Byte.to_N b) 0x3f) 0x80)) =
  String (variantHigh b) (String (variantLow b) EmptyString).
Proof. destruct b; reflexivity. Qed.

Lemma hexHigh_isHexDigit (b : byte) : isHexDigit (hexHigh b) = true.
Proof. destruct b; reflexivity. Qed.

Lemma hexLow_isHexDigit (b : byte) : isHexDigit (hexLow b) = true.
Proof. destruct b; reflexivity. Qed.

Lemma variantHigh_isHexDigit (b : byte) : isHexDigit (variantHigh b) = true.
Proof. destruct b; reflexivity. Qed.

Lemma variantLow_isHexDigit (b : byte) : isHexDigit (variantLow b) = true.
Proof. destruct b; reflexivity. Qed.

(** [(b & 0x3f) | 0x80] lies between [0x80] and [0xbf]. *)
Lemma variantHigh_cases (b : byte) :
  In (variantHigh b) ["8"; "9"; "a"; "b"]%char.
Proof. destruct b; vm_compute; tauto. Qed.

(** Discharge [stringForall isHexDigit] on a string of generated digits. *)
Ltac hexdigits :=
  simpl;
  rewrite ?hexHigh_isHexDigit, ?hexLow_isHexDigit, ?variantHigh_isHexDigit,
    ?variantLow_isHexDigit;
  reflexivity.

Section Generator.

Variable sha256_digest : string -> list byte.
Hypothesis sha256_digest_length :
  forall s, length (sha256_digest s) = 32%nat.

(** The groups of a generated identifier: the third starts with [4], the
    fourth with one of [8], [9], [a], [b]. *)
Lemma generateUUID_groups (e : Entropy) :
  exists g1 g2 g3 y g4 g5,
    uuidGroups (generateUUID sha256_digest e)
      g1 g2 (String "4" g3) (String y g4) g5 /\
    In y ["8"; "9"; "a"; "b"]%char.
Proof.
  unfold generateUUID.
  pose proof (sha256_digest_length (timestamp e +:+ hexOfBytes (randomBytes e))) as Hlen.
  destruct (sha256_digest (timestamp e +:+ hexOfBytes (randomBytes e))) as
    [|h0 [|h1 [|h2 [|h3 [|h4 [|h5 [|h6 [|h7 [|h8 [|h9 [|h10 [|h11 [|h12
    [|h13 [|h14 [|h15 [|h16 [|h17 [|h18 [|h19 [|h20 [|h21 [|h22 [|h23 [|h24
    [|h25 [|h26 [|h27 [|h28 [|h29 [|h30 [|h31 [|?
    ?]]]]]]]]]]]]]]]]]]]]]]]]]]]]]]]]];
    try discriminate Hlen.
  clear Hlen.
  unfold hexOfBytes. simpl map. rewrite !hexOfByte_digits.
  simpl nth. rewrite variant_digits.
  unfold substr. simpl.
  exists (string_of_list_ascii [hexHigh h0; hexLow h0; hexHigh h1; hexLow h1;
    hexHigh h2; hexLow h2; hexHigh h3; hexLow h3]).
  exists (string_of_list_ascii [hexHigh h4; hexLow h4; hexHigh h5; hexLow h5]).
  exists (string_of_list_ascii [hexLow h6; hexHigh h7; hexLow h7]).
  exists (variantHigh h16).
  exists (string_of_list_ascii [variantLow h16; hexLow h8; hexHigh h9]).
  exists (string_of_list_ascii [hexHigh h10; hexLow h10; hexHigh h11; hexLow h11;
    hexHigh h12; hexLow h12; hexHigh h13; hexLow h13; hexHigh h14; hexLow
    h14; hexHigh h15; hexLow h15]).
  split; [| apply variantHigh_cases].
  unfold uuidGroups, hexGroup.
  refine (conj _ (conj _ (conj _ (conj _ (conj _ _))))).
  - simpl. reflexivity.
  - split; [reflexivity | hexdigits].
  - split; [reflexivity | hexdigits].
  - split; [reflexivity | hexdigits].
  - split; [reflexivity | hexdigits].
  - split; [reflexivity | hexdigits].
Qed.

Lemma generateUUID_valid (e : Entropy) :
  isValidUUID (generateUUID sha256_digest e) = true.
Proof.
  destruct (generateUUID_groups e) as (g1 & g2 & g3 & y & g4 & g5 & H & _).
  apply isValidUUID_format. red. eauto 6.
Qed.

End Generator.

(** ** Invariants of the stores *)

Lemma containsKey_true {V : Type} (m : gmap string V) (k : string) :
  containsKey m k = true <-> is_Some (m !! k).
Proof.
  unfold containsKey. destruct (m !! k); split; intros H; done.
Qed.

Lemma containsKey_false {V : Type} (m : gmap string V) (k : string) :
  containsKey m k = false <-> m !! k = None.
Proof. unfold containsKey. destruct (m !! k); split; intros H; done. Qed.

(** Inserting a record under its own id, or deleting a key, keeps keys and
    ids equal. *)
Lemma insert_keyed {V : Type} (idOf : V -> string) (m : gmap string V) (v : V) :
  (forall k x, m !! k = Some x -> idOf x = k) ->
  forall k x, <[idOf v := v]> m !! k = Some x -> idOf x = k.
Proof.
  intros Hm k x [[<- <-] | [_ Hk]]%lookup_insert_Some; [reflexivity | eauto].
Qed.

Lemma delete_keyed {V : Type} (idOf : V -> string) (m : gmap string V) (i : string) :
  (forall k x, m !! k = Some x -> idOf x = k) ->
  forall k x, delete i m !! k = Some x -> idOf x = k.
Proof. intros Hm k x [_ Hk]%lookup_delete_Some. eauto. Qed.

Section Invariants.

Variable sha256_digest : string -> list byte.

Lemma exec_keysAreIds (c : Call) (st : Storage) :
  keysAreIds st -> keysAreIds (exec sha256_digest c st).
Proof.
  intros Hst. pose proof Hst as (Hc & Hi & Hp).
  destruct c as [e p | p | id | e cid p | p | id | e cid p | p | id]; unfold exec.
  - unfold addCustomer. destruct (negb (isValidPayload p)); [done |].
    split; [| done]. simpl. apply (insert_keyed Customer.id). exact Hc.
  - unfold updateCustomer. destruct (negb (containsKey _ _)); [done |].
    split; [| done]. simpl. apply (insert_keyed Customer.id). exact Hc.
  - unfold deleteCustomer. destruct (negb (isValidUUID id)); [done |].
    assert (keysAreIds (withCustomers (delete id (customerStorage st)) st)).
    { split; [| done]. simpl. apply (delete_keyed Customer.id). exact Hc. }
    destruct (customerStorage st !! id); assumption.
  - unfold addInteraction. destruct (negb (isValidUUID cid)); [done |].
    destruct (negb (isValidPayload p)); [done |].
    destruct (customerStorage st !! cid) as [found|]; [| done].
    simpl. split; [| split; [| done]]; simpl.
    + apply (insert_keyed Customer.id _ (pushInteraction found _)). exact Hc.
    + apply (insert_keyed Interaction.id _ (Interaction.Make _ _ _ _ _ _)). exact Hi.
  - unfold updateInteraction. destruct (negb (containsKey _ _)); [done |].
    split; [done | split; [| done]]. simpl. apply (insert_keyed Interaction.id). exact Hi.
  - unfold deleteInteraction. destruct (negb (isValidUUID id)); [done |].
    assert (keysAreIds (withInteractions (delete id (interactionStorage st)) st)).
    { split; [done | split; [| done]]. simpl. apply (delete_keyed Interaction.id). exact Hi. }
    destruct (interactionStorage st !! id); assumption.
  - unfold addPurchase. destruct (negb (isValidUUID cid)); [done |].
    destruct (negb (isValidPayload p)); [done |].
    destruct (customerStorage st !! cid) as [found|]; [| done].
    simpl. split; [| split; [done |]]; simpl.
    + apply (insert_keyed Customer.id _ (pushPurchase found _)). exact Hc.
    + apply (insert_keyed Purchase.id _ (Purchase.Make _ _ _ _ _)). exact Hp.
  - unfold updatePurchase. destruct (negb (containsKey _ _)); [done |].
    split; [done | split; [done |]]. simpl. apply (insert_keyed Purchase.id). exact Hp.
  - unfold deletePurchase. destruct (negb (isValidUUID id)); [done |].
    assert (keysAreIds (withPurchases (delete id (purchaseStorage st)) st)).
    { split; [done | split; [done |]]. simpl. apply (delete_keyed Purchase.id). exact Hp. }
    destruct (purchaseStorage st !! id); assumption.
Qed.

Lemma emptyStorage_keysAreIds : keysAreIds emptyStorage.
Proof. repeat split; intros k x H; simpl in H; rewrite lookup_empty in H; discriminate. Qed.

Lemma reachable_keysAreIds (st : Storage) :
  reachable sha256_digest st -> keysAreIds st.
Proof.
  induction 1 as [| c st _ IH]; [apply emptyStorage_keysAreIds | now apply exec_keysAreIds].
Qed.

Hypothesis sha256_digest_length :
  forall s, length (sha256_digest s) = 32%nat.

Lemma exec_customerKeysValid (c : Call) (st : Storage) :
  keysAreIds st -> customerKeysValid st ->
  customerKeysValid (exec sha256_digest c st).
Proof.
  intros (Hc & _ & _) Hv.
  destruct c as [e p | p | id | e cid p | p | id | e cid p | p | id]; unfold exec.
  - unfold addCustomer. destruct (negb (isValidPayload p)); [done |].
    unfold customerKeysValid; simpl.
    intros k x [[<- _] | [_ Hk]]%lookup_insert_Some; [| eauto].
    simpl. now apply generateUUID_valid.
  - unfold updateCustomer.
    destruct (containsKey (customerStorage st) (Customer.id p)) eqn:Hin; [| done].
    apply containsKey_true in Hin as [old Hold].
    unfold customerKeysValid; simpl.
    intros k x [[<- _] | [_ Hk]]%lookup_insert_Some; eauto.
  - unfold deleteCustomer. destruct (negb (isValidUUID id)); [done |].
    assert (customerKeysValid (withCustomers (delete id (customerStorage st)) st)).
    { unfold customerKeysValid; simpl.
      intros k x [_ Hk]%lookup_delete_Some. eauto. }
    destruct (customerStorage st !! id); assumption.
  - unfold addInteraction. destruct (negb (isValidUUID cid)); [done |].
    destruct (negb (isValidPayload p)); [done |].
    destruct (customerStorage st !! cid) as [found|] eqn:Hfound; [| done].
    unfold customerKeysValid; simpl.
    intros k x [[<- _] | [_ Hk]]%lookup_insert_Some; [| eauto].
    simpl. rewrite (Hc _ _ Hfound). eauto.
  - unfold updateInteraction. destruct (negb (containsKey _ _)); done.
  - unfold deleteInteraction. destruct (negb (isValidUUID id)); [done |].
    destruct (interactionStorage st !! id); assumption.
  - unfold addPurchase. destruct (negb (isValidUUID cid)); [done |].
    destruct (negb (isValidPayload p)); [done |].
    destruct (customerStorage st !! cid) as [found|] eqn:Hfound; [| done].
    unfold customerKeysValid; simpl.
    intros k x [[<- _] | [_ Hk]]%lookup_insert_Some; [| eauto].
    simpl. rewrite (Hc _ _ Hfound). eauto.
  - unfold updatePurchase. destruct (negb (containsKey _ _)); done.
  - unfold deletePurchase. destruct (negb (isValidUUID id)); [done |].
    destruct (purchaseStorage st !! id); assumption.
Qed.

Lemma reachable_customerKeysValid (st : Storage) :
  reachable sha256_digest st -> customerKeysValid st.
Proof.
  induction 1 as [| c st Hst IH].
  - intros k x H. simpl in H. rewrite lookup_empty in H. discriminate.
  - apply exec_customerKeysValid; [now apply reachable_keysAreIds | exact IH].
Qed.

End Invariants.

(** ** The digest used in the worked examples *)

Lemma SHA256_digest_length (s : string) : length (SHA256.digest s) = 32%nat.
Proof. unfold SHA256.digest. rewrite !length_app. reflexivity. Qed.

Example js_helpers :
  toString16 0 = "0" /\ toString16 255 = "ff" /\ toString16 4096 = "1000" /\
  padStart 2 "0" "a" = "0a" /\ padStart 2 "0" "abc" = "abc" /\
  padStart 5 "xy" "a" = "xyxya" /\
  substr 13 3 "0123456789abcdefghij" = "def" /\ substr 18 5 "0123456789abcdefghij" = "ij" /\
  toLowerCase "Closed [A-Z]" = "closed [a-z]" /\
  hexOfBytes [x00; x0a; xff] = "000aff".
Proof. vm_compute. repeat split; reflexivity. Qed.

Example SHA256_constants :
  length SHA256.K = 64%nat /\
  nth 0 SHA256.K 0%Z = 0x428a2f98%Z /\ nth 63 SHA256.K 0%Z = 0xc67178f2%Z /\
  SHA256.ha SHA256.H0 = 0x6a09e667%Z /\ SHA256.hh SHA256.H0 = 0x5be0cd19%Z.
Proof. vm_compute. auto. Qed.

Example SHA256_abc :
  hexOfBytes (SHA256.digest "abc") =
  "ba7816bf8f01cfea414140de5dae2223b00361a396177a9cb410ff61f20015ad".
Proof. vm_compute. reflexivity. Qed.

Example SHA256_two_blocks :
  hexOfBytes
    (SHA256.digest "abcdbcdecdefdefgefghfghighijhijkijkljklmklmnlmnomnopnopq") =
  "248d6a61d20638b8e5c026930c3e6039a33ce45964ff2167f6ecedd419db06c1".
Proof. vm_compute. reflexivity. Qed.

Lemma acmeStore_reachable : reachable SHA256.digest acmeStore.
Proof. apply reachable_exec, reachable_empty. Qed.

(** ** Identifiers (C9) *)

Lemma length_append (a b : string) :
  String.length (a +:+ b) = (String.length a + String.length b)%nat.
Proof. induction a as [|x a IH]; simpl; [reflexivity | now rewrite IH]. Qed.

Lemma uuidFormat_length (s : string) : uuidFormat s -> String.length s = 36%nat.
Proof.
  intros (g1 & g2 & g3 & g4 & g5 & -> & [L1 _] & [L2 _] & [L3 _] & [L4 _] & [L5 _]).
  rewrite !length_append, L1, L2, L3, L4, L5. reflexivity.
Qed.

(** C9: for every timestamp and random bytes, [generateUUID] returns a
    token of 36 characters in the 8-4-4-4-12 hexadecimal layout whose third
    group starts with [4] and whose fourth group starts with one of [8], [9],
    [a], [b]; [isValidUUID] accepts it; and [isValidUUID] accepts exactly the
    strings of that layout, in either case of the digits. *)
Theorem generateUUID_format
    (sha256_digest : string -> list byte)
    (sha256_digest_length : forall s, length (sha256_digest s) = 32%nat)
    (e : Entropy) :
  (exists g1 g2 g3 y g4 g5,
     uuidGroups (generateUUID sha256_digest e)
       g1 g2 (String "4" g3) (String y g4) g5 /\
     In y ["8"; "9"; "a"; "b"]%char) /\
  String.length (generateUUID sha256_digest e) = 36%nat /\
  isValidUUID (generateUUID sha256_digest e) = true /\
  (forall s, isValidUUID s = true <-> uuidFormat s).
Proof.
  pose proof (generateUUID_valid _ sha256_digest_length e) as Hvalid.
  split; [now apply generateUUID_groups |].
  split; [now apply uuidFormat_length, isValidUUID_format |].
  split; [exact Hvalid | exact isValidUUID_format].
Qed.

Lemma generateUUID_format_witness :
  (exists g1 g2 g3 y g4 g5,
     uuidGroups (generateUUID SHA256.digest entropy1)
       g1 g2 (String "4" g3) (String y g4) g5 /\
     In y ["8"; "9"; "a"; "b"]%char) /\
  String.length (generateUUID SHA256.digest entropy1) = 36%nat /\
  isValidUUID (generateUUID SHA256.digest entropy1) = true /\
  (forall s, isValidUUID s = true <-> uuidFormat s).
Proof. exact (generateUUID_format SHA256.digest SHA256_digest_length entropy1). Defined.

Example generateUUID_entropy1 :
  generateUUID SHA256.digest entropy1 = "b6b6fdbf-7c6c-4cbb-9bf6-9a401ef10d58".
Proof. vm_compute. reflexivity. Qed.

Example isValidUUID_examples :
  isValidUUID "ABCDEF01-2345-6789-abcd-ef0123456789" = true /\
  isValidUUID "ABCDEF01-2345-6789-abcd-ef012345678" = false /\
  isValidUUID "gBCDEF01-2345-6789-abcd-ef0123456789" = false /\
  isValidUUID "ABCDEF01-2345-6789-abcd-ef0123456789 " = false /\
  isValidUUID "abc" = false.
Proof. vm_compute. auto. Qed.

(** ** Customers (C1, C3, C4) *)

Lemma isValidPayload_customer (payload : CustomerPayload.t) :
  isValidPayload payload = true.
Proof. reflexivity. Qed.

(** C1: for every valid payload, [addCustomer] succeeds with a customer
    whose id has the identifier format and whose interaction and purchase
    lists are empty, and the customer is stored under its id. *)
Theorem addCustomer_creates_customer
    (sha256_digest : string -> list byte)
    (sha256_digest_length : forall s, length (sha256_digest s) = 32%nat)
    (e : Entropy) (payload : CustomerPayload.t) (st : Storage) :
  isValidPayload payload = true ->
  exists customer st',
    addCustomer sha256_digest e payload st = (Ok customer, st') /\
    uuidFormat (Customer.id customer) /\
    isValidUUID (Customer.id customer) = true /\
    Customer.interactions customer = [] /\
    Customer.purchases customer = [] /\
    customerStorage st' !! Customer.id customer = Some customer.
Proof.
  intros Hvalid. unfold addCustomer. rewrite Hvalid. simpl negb. cbv iota.
  eexists _, _. split; [reflexivity |]. simpl.
  pose proof (generateUUID_valid _ sha256_digest_length e) as Hid.
  split; [now apply isValidUUID_format |].
  split; [exact Hid |].
  split; [reflexivity |]. split; [reflexivity |].
  apply lookup_insert_eq.
Qed.

Lemma addCustomer_creates_customer_witness :
  isValidPayload acme = true /\
  exists customer st',
    addCustomer SHA256.digest entropy1 acme emptyStorage = (Ok customer, st') /\
    uuidFormat (Customer.id customer) /\
    isValidUUID (Customer.id customer) = true /\
    Customer.interactions customer = [] /\
    Customer.purchases customer = [] /\
    customerStorage st' !! Customer.id customer = Some customer.
Proof.
  split; [reflexivity |].
  apply (addCustomer_creates_customer SHA256.digest SHA256_digest_length
           entropy1 acme emptyStorage).
  reflexivity.
Defined.

(** C3: in every reachable store, [updateCustomer] of a record whose id is
    present succeeds, stores the record as given and leaves the other stores
    alone, after which [getCustomer] of that id returns the record; for an
    absent id it returns NotFound and the stores are unchanged. *)
Theorem updateCustomer_replaces
    (sha256_digest : string -> list byte)
    (sha256_digest_length : forall s, length (sha256_digest s) = 32%nat)
    (c : Customer.t) (st : Storage) :
  reachable sha256_digest st ->
  (is_Some (customerStorage st !! Customer.id c) ->
   exists st',
     updateCustomer c st = (Ok c, st') /\
     st' = withCustomers (<[Customer.id c := c]> (customerStorage st)) st /\
     customerStorage st' !! Customer.id c = Some c /\
     getCustomer (Customer.id c) st' = Ok c) /\
  (customerStorage st !! Customer.id c = None ->
   updateCustomer c st =
     (Err (NotFound ("Customer with id=" +:+ Customer.id c +:+ " not found")), st)).
Proof.
  intros Hreach. split.
  - intros Hin. pose proof Hin as [old Hold].
    apply containsKey_true in Hin.
    unfold updateCustomer. rewrite Hin. simpl negb. cbv iota.
    eexists. split; [reflexivity |]. split; [reflexivity |].
    assert (isValidUUID (Customer.id c) = true) as Hid
      by (eapply reachable_customerKeysValid; eauto).
    unfold getCustomer. rewrite Hid. simpl.
    rewrite lookup_insert_eq. split; reflexivity.
  - intros Hout. apply containsKey_false in Hout.
    unfold updateCustomer. rewrite Hout. reflexivity.
Qed.

Lemma updateCustomer_replaces_witness :
  reachable SHA256.digest acmeStore /\
  is_Some (customerStorage acmeStore !! Customer.id acmeRenamed) /\
  (exists st',
     updateCustomer acmeRenamed acmeStore = (Ok acmeRenamed, st') /\
     st' = withCustomers
             (<[Customer.id acmeRenamed := acmeRenamed]> (customerStorage acmeStore))
             acmeStore /\
     customerStorage st' !! Customer.id acmeRenamed = Some acmeRenamed /\
     getCustomer (Customer.id acmeRenamed) st' = Ok acmeRenamed) /\
  customerStorage acmeStore !! Customer.id stranger = None /\
  updateCustomer stranger acmeStore =
    (Err (NotFound ("Customer with id=" +:+ Customer.id stranger +:+ " not found")),
     acmeStore).
Proof.
  assert (is_Some (customerStorage acmeStore !! Customer.id acmeRenamed)) as Hin
    by (vm_compute; eauto).
  assert (customerStorage acmeStore !! Customer.id stranger = None) as Hout
    by (vm_compute; reflexivity).
  split; [exact acmeStore_reachable |].
  split; [exact Hin |].
  split.
  - exact (proj1 (updateCustomer_replaces SHA256.digest SHA256_digest_length
                    acmeRenamed acmeStore acmeStore_reachable) Hin).
  - split; [exact Hout |].
    exact (proj2 (updateCustomer_replaces SHA256.digest SHA256_digest_length
                    stranger acmeStore acmeStore_reachable) Hout).
Defined.

(** C4: in every reachable store, [deleteCustomer] of a format-valid id that
    is present succeeds with that id, after which [getCustomer] of the id is
    NotFound, and deleting it again is NotFound and changes no store. *)
Theorem deleteCustomer_removes
    (sha256_digest : string -> list byte)
    (id : string) (st : Storage) :
  reachable sha256_digest st ->
  isValidUUID id = true ->
  is_Some (customerStorage st !! id) ->
  exists st',
    deleteCustomer id st = (Ok id, st') /\
    customerStorage st' !! id = None /\
    getCustomer id st' =
      Err (NotFound ("Customer with id=" +:+ id +:+ " not found")) /\
    deleteCustomer id st' =
      (Err (NotFound ("Customer with id=" +:+ id +:+ " not found")), st').
Proof.
  intros Hreach Hid [c Hc].
  destruct (reachable_keysAreIds _ _ Hreach) as (Hkeys & _ & _).
  unfold deleteCustomer at 1. rewrite Hid, Hc. simpl negb. cbv iota zeta.
  rewrite (Hkeys _ _ Hc).
  eexists. split; [reflexivity |].
  assert (delete id (customerStorage st) !! id = None) as Hgone
    by apply lookup_delete_eq.
  split; [exact Hgone |].
  unfold getCustomer, deleteCustomer. rewrite Hid. simpl.
  rewrite Hgone. split; [reflexivity |].
  unfold withCustomers. simpl. rewrite (delete_id _ _ Hgone). reflexivity.
Qed.

Lemma deleteCustomer_removes_witness :
  reachable SHA256.digest acmeStore /\
  isValidUUID acmeId = true /\
  is_Some (customerStorage acmeStore !! acmeId) /\
  exists st',
    deleteCustomer acmeId acmeStore = (Ok acmeId, st') /\
    customerStorage st' !! acmeId = None /\
    getCustomer acmeId st' =
      Err (NotFound ("Customer with id=" +:+ acmeId +:+ " not found")) /\
    deleteCustomer acmeId st' =
      (Err (NotFound ("Customer with id=" +:+ acmeId +:+ " not found")), st').
Proof.
  assert (isValidUUID acmeId = true) as Hid by (vm_compute; reflexivity).
  assert (is_Some (customerStorage acmeStore !! acmeId)) as Hin
    by (vm_compute; eauto).
  split; [exact acmeStore_reachable |].
  split; [exact Hid |].
  split; [exact Hin |].
  exact (deleteCustomer_removes SHA256.digest acmeId acmeStore
           acmeStore_reachable Hid Hin).
Defined.

(** The example of the specification: add, get, delete, get. *)
Example acme_lifecycle :
  exists customer st1 st2,
    addCustomer SHA256.digest entropy1 acme emptyStorage = (Ok customer, st1) /\
    Customer.id customer = acmeId /\
    getCustomer acmeId st1 = Ok customer /\
    deleteCustomer acmeId st1 = (Ok acmeId, st2) /\
    getCustomer acmeId st2 =
      Err (NotFound "Customer with id=b6b6fdbf-7c6c-4cbb-9bf6-9a401ef10d58 not found").
Proof. eexists _, _, _. vm_compute. repeat split; reflexivity. Qed.

(** ** Lookups of absent ids (C2, C7) *)

(** C2, as stated, fails: an id that is absent from the customer store and
    does not have the identifier format is answered with InvalidPayload,
    not with NotFound. *)
Lemma getCustomer_malformed_absent_id :
  customerStorage emptyStorage !! "abc" = None /\
  getCustomer "abc" emptyStorage = Err (InvalidPayload "Invalid UUID") /\
  ~ (forall (id : string) (st : Storage),
       customerStorage st !! id = None ->
       exists msg, getCustomer id st = Err (NotFound msg)).
Proof.
  split; [reflexivity |]. split; [reflexivity |].
  intros H. destruct (H "abc" emptyStorage eq_refl) as [msg Hmsg].
  vm_compute in Hmsg. discriminate Hmsg.
Qed.

(** C2, amended: an id that is absent from a store is answered by the
    corresponding getter with NotFound when it has the identifier format and
    with InvalidPayload when it has not; the two list-by-customer queries
    answer every id absent from the customer store with the empty list.
    Every handler is a total function: each call returns a result. *)
Theorem get_absent_id (id : string) (st : Storage) :
  (customerStorage st !! id = None ->
   getCustomer id st =
     (if isValidUUID id
      then Err (NotFound ("Customer with id=" +:+ id +:+ " not found"))
      else Err (InvalidPayload "Invalid UUID")) /\
   getCustomerInteractions id st = [] /\
   getCustomerPurchases id st = []) /\
  (interactionStorage st !! id = None ->
   getInteraction id st =
     (if isValidUUID id
      then Err (NotFound ("Interaction with id=" +:+ id +:+ " not found"))
      else Err (InvalidPayload "Invalid UUID"))) /\
  (purchaseStorage st !! id = None ->
   getPurchase id st =
     (if isValidUUID id
      then Err (NotFound ("Purchase with id=" +:+ id +:+ " not found"))
      else Err (InvalidPayload "Invalid UUID"))).
Proof.
  unfold getCustomer, getCustomerInteractions, getCustomerPurchases,
    getInteraction, getPurchase.
  split; [| split]; intros ->; destruct (isValidUUID id);
    repeat apply conj; reflexivity.
Qed.

Lemma get_absent_id_witness :
  customerStorage acmeStore !! Customer.id stranger = None /\
  getCustomer (Customer.id stranger) acmeStore =
    Err (NotFound "Customer with id=00000000-0000-4000-8000-000000000000 not found") /\
  getCustomerInteractions (Customer.id stranger) acmeStore = [] /\
  getCustomerPurchases (Customer.id stranger) acmeStore = [] /\
  getInteraction "not-an-id" acmeStore = Err (InvalidPayload "Invalid UUID") /\
  getPurchase acmeId acmeStore =
    Err (NotFound "Purchase with id=b6b6fdbf-7c6c-4cbb-9bf6-9a401ef10d58 not found").
Proof.
  assert (customerStorage acmeStore !! Customer.id stranger = None) as Hc
    by (vm_compute; reflexivity).
  split; [exact Hc |].
  destruct (proj1 (get_absent_id (Customer.id stranger) acmeStore) Hc)
    as (Hget & Hints & Hpurs).
  split; [exact Hget |]. split; [exact Hints |]. split; [exact Hpurs |].
  split.
  - exact (proj1 (proj2 (get_absent_id "not-an-id" acmeStore)) eq_refl).
  - exact (proj2 (proj2 (get_absent_id acmeId acmeStore)) eq_refl).
Defined.

(** C7: the two list-by-customer queries return a list for every input: the
    empty list when the id is malformed or names no customer, and the
    customer's embedded list otherwise. *)
Theorem list_by_customer_never_fails (customerId : string) (st : Storage) :
  (isValidUUID customerId = false \/ customerStorage st !! customerId = None ->
   getCustomerInteractions customerId st = [] /\
   getCustomerPurchases customerId st = []) /\
  (forall customer,
     isValidUUID customerId = true ->
     customerStorage st !! customerId = Some customer ->
     getCustomerInteractions customerId st = Customer.interactions customer /\
     getCustomerPurchases customerId st = Customer.purchases customer).
Proof.
  unfold getCustomerInteractions, getCustomerPurchases. split.
  - intros [-> | ->]; [split; reflexivity |].
    destruct (isValidUUID customerId); split; reflexivity.
  - intros customer -> ->. split; reflexivity.
Qed.

(** ** Interactions (C5, C6) *)

(** C5: in every reachable store, for a format-valid id of a stored customer
    and a valid payload, [addInteraction] succeeds with a new id; the
    customer's embedded list then ends with the interaction made of that id
    and the payload's fields, and [getInteraction] of the id returns the same
    interaction from the interaction store. *)
Theorem addInteraction_recorded
    (sha256_digest : string -> list byte)
    (sha256_digest_length : forall s, length (sha256_digest s) = 32%nat)
    (e : Entropy) (customerId : string) (payload : InteractionPayload.t)
    (st : Storage) :
  reachable sha256_digest st ->
  isValidUUID customerId = true ->
  is_Some (customerStorage st !! customerId) ->
  isValidPayload payload = true ->
  exists newId st',
    addInteraction sha256_digest e customerId payload st = (Ok newId, st') /\
    getCustomerInteractions customerId st' =
      getCustomerInteractions customerId st ++ [interactionOf newId payload] /\
    In (interactionOf newId payload) (getCustomerInteractions customerId st') /\
    getInteraction newId st' = Ok (interactionOf newId payload).
Proof.
  intros Hreach Hid [found Hfound] Hpayload.
  destruct (reachable_keysAreIds _ _ Hreach) as (Hkeys & _ & _).
  pose proof (generateUUID_valid _ sha256_digest_length e) as Hnew.
  unfold addInteraction. rewrite Hid, Hpayload, Hfound. simpl negb. cbv iota zeta.
  eexists _, _. split; [reflexivity |].
  assert (forall l,
    getCustomerInteractions customerId
      (MkStorage
         (<[Customer.id (pushInteraction found (interactionOf (generateUUID sha256_digest e) payload))
            := pushInteraction found (interactionOf (generateUUID sha256_digest e) payload)]>
            (customerStorage st)) l (purchaseStorage st)) =
    getCustomerInteractions customerId st
      ++ [interactionOf (generateUUID sha256_digest e) payload]) as Hlist.
  { intros l. unfold getCustomerInteractions. rewrite Hid, Hfound. simpl.
    rewrite (Hkeys _ _ Hfound), lookup_insert_eq. reflexivity. }
  unfold interactionOf in *. simpl Interaction.id.
  split; [apply Hlist |].
  split.
  - rewrite Hlist. apply in_or_app. right. left. reflexivity.
  - unfold getInteraction. rewrite Hnew. simpl. rewrite lookup_insert_eq. reflexivity.
Qed.

Lemma acmeWithCall_reachable : reachable SHA256.digest acmeWithCall.
Proof. apply reachable_exec, acmeStore_reachable. Qed.

Lemma addInteraction_recorded_witness :
  reachable SHA256.digest acmeStore /\
  isValidUUID acmeId = true /\
  is_Some (customerStorage acmeStore !! acmeId) /\
  isValidPayload firstContact = true /\
  exists newId st',
    addInteraction SHA256.digest entropy2 acmeId firstContact acmeStore =
      (Ok newId, st') /\
    getCustomerInteractions acmeId st' =
      getCustomerInteractions acmeId acmeStore ++ [interactionOf newId firstContact] /\
    In (interactionOf newId firstContact) (getCustomerInteractions acmeId st') /\
    getInteraction newId st' = Ok (interactionOf newId firstContact).
Proof.
  assert (isValidUUID acmeId = true) as Hid by (vm_compute; reflexivity).
  assert (is_Some (customerStorage acmeStore !! acmeId)) as Hin
    by (vm_compute; eauto).
  split; [exact acmeStore_reachable |].
  split; [exact Hid |]. split; [exact Hin |]. split; [reflexivity |].
  exact (addInteraction_recorded SHA256.digest SHA256_digest_length entropy2
           acmeId firstContact acmeStore acmeStore_reachable Hid Hin eq_refl).
Defined.

(** C6: [updateInteraction] of a record whose id is in the interaction store
    succeeds and writes the interaction store only: the customer store, and
    with it every customer's embedded interaction list, is unchanged. *)
Theorem updateInteraction_leaves_customers (payload : Interaction.t) (st : Storage) :
  is_Some (interactionStorage st !! Interaction.id payload) ->
  exists st',
    updateInteraction payload st = (Ok payload, st') /\
    interactionStorage st' =
      <[Interaction.id payload := payload]> (interactionStorage st) /\
    customerStorage st' = customerStorage st /\
    purchaseStorage st' = purchaseStorage st /\
    (forall customerId,
       getCustomerInteractions customerId st' = getCustomerInteractions customerId st).
Proof.
  intros Hin. apply containsKey_true in Hin.
  unfold updateInteraction. rewrite Hin. simpl negb. cbv iota.
  eexists. repeat apply conj; reflexivity.
Qed.

(** X5: the mirror for purchases: [updatePurchase] of a record whose id is
    in the purchase store succeeds and writes the purchase store only; every
    customer's embedded purchase list is unchanged. *)
Lemma updatePurchase_leaves_customers (payload : Purchase.t) (st : Storage) :
  is_Some (purchaseStorage st !! Purchase.id payload) ->
  exists st',
    updatePurchase payload st = (Ok payload, st') /\
    purchaseStorage st' = <[Purchase.id payload := payload]> (purchaseStorage st) /\
    customerStorage st' = customerStorage st /\
    interactionStorage st' = interactionStorage st /\
    (forall customerId,
       getCustomerPurchases customerId st' = getCustomerPurchases customerId st).
Proof.
  intros Hin. apply containsKey_true in Hin.
  unfold updatePurchase. rewrite Hin. simpl negb. cbv iota.
  eexists. repeat apply conj; reflexivity.
Qed.

Lemma updateInteraction_leaves_customers_witness :
  is_Some (interactionStorage acmeWithCall !! Interaction.id callClosed) /\
  exists st',
    updateInteraction callClosed acmeWithCall = (Ok callClosed, st') /\
    interactionStorage st' =
      <[Interaction.id callClosed := callClosed]> (interactionStorage acmeWithCall) /\
    customerStorage st' = customerStorage acmeWithCall /\
    purchaseStorage st' = purchaseStorage acmeWithCall /\
    (forall customerId,
       getCustomerInteractions customerId st' =
       getCustomerInteractions customerId acmeWithCall).
Proof.
  assert (is_Some (interactionStorage acmeWithCall !! Interaction.id callClosed))
    as Hin by (vm_compute; eauto).
  split; [exact Hin |].
  exact (updateInteraction_leaves_customers callClosed acmeWithCall Hin).
Defined.

Lemma closedStore_reachable : reachable SHA256.digest closedStore.
Proof. exact (reachable_exec SHA256.digest _ _ acmeWithCall_reachable). Qed.

Example embedded_copy_diverges :
  getInteraction callId closedStore = Ok callClosed /\
  getCustomerInteractions acmeId closedStore = [interactionOf callId firstContact] /\
  interactionOf callId firstContact <> callClosed.
Proof. vm_compute. repeat split; discriminate. Qed.

(** ** Case-insensitive filters (C8) *)

(** A property of two characters holds of all when it holds of the 256 codes. *)
Lemma ascii_forall2 (f : ascii -> ascii -> bool) :
  forallb (fun x => forallb (fun y => f (ascii_of_nat x) (ascii_of_nat y)) (seq 0 256))
          (seq 0 256) = true ->
  forall a b, f a b = true.
Proof.
  intros H a b. rewrite forallb_forall in H.
  assert (forall c, In (nat_of_ascii c) (seq 0 256)) as Hin.
  { intros c. apply in_seq. pose proof (nat_ascii_bounded c). lia. }
  specialize (H _ (Hin a)). rewrite forallb_forall in H.
  specialize (H _ (Hin b)). now rewrite !ascii_nat_embedding in H.
Qed.

(** Lower-casing identifies exactly the characters equal up to ASCII case. *)
Lemma toLowerChar_caseVariants (a b : ascii) :
  Ascii.eqb (toLowerChar a) (toLowerChar b) = caseVariants a b.
Proof.
  apply eqb_prop.
  apply (ascii_forall2
           (fun a b => Bool.eqb (Ascii.eqb (toLowerChar a) (toLowerChar b))
                                (caseVariants a b))).
  vm_compute. reflexivity.
Qed.

Lemma toLowerCase_equalUpToAsciiCase (s1 s2 : string) :
  String.eqb (toLowerCase s1) (toLowerCase s2) = equalUpToAsciiCase s1 s2.
Proof.
  revert s2. induction s1 as [|a s1 IH]; intros [|b s2]; simpl; try reflexivity.
  rewrite toLowerChar_caseVariants, IH.
  destruct (caseVariants a b); reflexivity.
Qed.

Lemma In_values {V : Type} (m : gmap string V) (v : V) :
  In v (values m) <-> exists k, m !! k = Some v.
Proof.
  unfold values. rewrite <- list_elem_of_In, list_elem_of_fmap. split.
  - intros ([k x] & -> & Hkx). exists k. now apply elem_of_map_to_list.
  - intros [k Hk]. exists (k, v). split; [reflexivity |].
    now apply elem_of_map_to_list.
Qed.

Lemma toLowerCase_ignoresAsciiCase : ignoresAsciiCase toLowerCase.
Proof.
  intros s1 s2 E. apply String.eqb_eq. now rewrite toLowerCase_equalUpToAsciiCase.
Qed.

Lemma toLowerCase_lowersAscii : lowersAscii toLowerCase.
Proof. intros s _. reflexivity. Qed.

Lemma filters_ignore_ascii_case_aux
    (lower : string -> string) (lower_ignoresAsciiCase : ignoresAsciiCase lower)
    (s1 s2 : string) (st : Storage) :
  equalUpToAsciiCase s1 s2 = true ->
  filterByStatus lower s1 st = filterByStatus lower s2 st.
Proof.
  intros Heq. unfold filterByStatus. now rewrite (lower_ignoresAsciiCase _ _ Heq).
Qed.

(** C8: two status strings equal up to ASCII case select the same
    interactions, namely the interactions of the interaction store whose
    status has the same lower-case form as the given one: all those whose
    status equals it up to ASCII case and, on ASCII text, no others;
    [getPurchasesByDate] treats purchase dates in the same way. *)
Theorem filters_ignore_ascii_case
    (lower : string -> string)
    (lower_ignoresAsciiCase : ignoresAsciiCase lower)
    (lower_lowersAscii : lowersAscii lower)
    (s1 s2 : string) (st : Storage) :
  equalUpToAsciiCase s1 s2 = true ->
  filterByStatus lower s1 st = filterByStatus lower s2 st /\
  getPurchasesByDate lower s1 st = getPurchasesByDate lower s2 st /\
  (forall i,
     In i (filterByStatus lower s1 st) <->
     (exists k, interactionStorage st !! k = Some i) /\
     lower (Interaction.status i) = lower s1) /\
  (forall p,
     In p (getPurchasesByDate lower s1 st) <->
     (exists k, purchaseStorage st !! k = Some p) /\
     lower (Purchase.date p) = lower s1) /\
  (forall i k,
     interactionStorage st !! k = Some i ->
     equalUpToAsciiCase (Interaction.status i) s1 = true ->
     In i (filterByStatus lower s1 st)) /\
  (forall p k,
     purchaseStorage st !! k = Some p ->
     equalUpToAsciiCase (Purchase.date p) s1 = true ->
     In p (getPurchasesByDate lower s1 st)) /\
  (isAscii s1 = true ->
   (forall i,
      isAscii (Interaction.status i) = true ->
      (In i (filterByStatus lower s1 st) <->
       (exists k, interactionStorage st !! k = Some i) /\
       equalUpToAsciiCase (Interaction.status i) s1 = true)) /\
   (forall p,
      isAscii (Purchase.date p) = true ->
      (In p (getPurchasesByDate lower s1 st) <->
       (exists k, purchaseStorage st !! k = Some p) /\
       equalUpToAsciiCase (Purchase.date p) s1 = true))).
Proof.
  intros Heq. pose proof (lower_ignoresAsciiCase _ _ Heq) as Hlow.
  assert (forall i,
            In i (filterByStatus lower s1 st) <->
            (exists k, interactionStorage st !! k = Some i) /\
            lower (Interaction.status i) = lower s1) as Hi.
  { intros i. unfold filterByStatus.
    now rewrite filter_In, In_values, String.eqb_eq. }
  assert (forall p,
            In p (getPurchasesByDate lower s1 st) <->
            (exists k, purchaseStorage st !! k = Some p) /\
            lower (Purchase.date p) = lower s1) as Hp.
  { intros p. unfold getPurchasesByDate.
    now rewrite filter_In, In_values, String.eqb_eq. }
  split; [unfold filterByStatus; now rewrite Hlow |].
  split; [unfold getPurchasesByDate; now rewrite Hlow |].
  split; [exact Hi |]. split; [exact Hp |].
  split; [intros i k Hk E; apply Hi; eauto |].
  split; [intros p k Hk E; apply Hp; eauto |].
  intros A1. split.
  - intros i Ai. rewrite Hi, !lower_lowersAscii by assumption.
    now rewrite <- String.eqb_eq, toLowerCase_equalUpToAsciiCase.
  - intros p Ap. rewrite Hp, !lower_lowersAscii by assumption.
    now rewrite <- String.eqb_eq, toLowerCase_equalUpToAsciiCase.
Qed.

(** The lower-casing with Latin-1 meets both assumptions. *)
Lemma caseVariants_195 (c : ascii) :
  caseVariants "195" c = true -> c = "195"%char.
Proof.
  intros H. apply Ascii.eqb_eq. revert H.
  assert (forall a c : ascii,
            implb (caseVariants "195" c) (Ascii.eqb c "195") = true) as Hall
    by (apply ascii_forall2; vm_compute; reflexivity).
  specialize (Hall c c).
  destruct (caseVariants "195" c), (Ascii.eqb c "195"); simpl in *; congruence.
Qed.

Lemma caseVariants_not_195 (a b : ascii) :
  caseVariants a b = true -> Ascii.eqb a "195" = Ascii.eqb b "195".
Proof.
  assert (forall a b : ascii,
            implb (caseVariants a b)
                  (Bool.eqb (Ascii.eqb a "195") (Ascii.eqb b "195")) = true) as Hall
    by (apply ascii_forall2; vm_compute; reflexivity).
  specialize (Hall a b).
  destruct (caseVariants a b); simpl in *; [| discriminate].
  intros _. now apply eqb_prop.
Qed.

Lemma lowerAfter195_caseVariants (a b : ascii) :
  caseVariants a b = true -> lowerAfter195 a = lowerAfter195 b.
Proof.
  assert (forall a b : ascii,
            implb (caseVariants a b)
                  (Ascii.eqb (lowerAfter195 a) (lowerAfter195 b)) = true) as Hall
    by (apply ascii_forall2; vm_compute; reflexivity).
  specialize (Hall a b).
  destruct (caseVariants a b); simpl in *; [| discriminate].
  intros _. now apply Ascii.eqb_eq.
Qed.

Lemma latin1ToLowerCase_ignoresAsciiCase : ignoresAsciiCase latin1ToLowerCase.
Proof.
  intros s1.
  assert (forall n s1 s2, (String.length s1 <= n)%nat ->
            equalUpToAsciiCase s1 s2 = true ->
            latin1ToLowerCase s1 = latin1ToLowerCase s2) as H; [| eauto].
  clear s1. induction n as [|n IH]; intros s1 s2 Hn E.
  - destruct s1; [| simpl in Hn; lia]. destruct s2; [reflexivity | discriminate].
  - destruct s1 as [|a r1], s2 as [|b r2]; try discriminate; [reflexivity |].
    simpl in E, Hn. apply andb_true_iff in E as [Eab E].
    simpl. rewrite <- (caseVariants_not_195 a b Eab).
    destruct (Ascii.eqb a "195") eqn:Ha.
    + apply Ascii.eqb_eq in Ha. subst a. apply caseVariants_195 in Eab. subst b.
      destruct r1 as [|d1 t1], r2 as [|d2 t2]; try discriminate; [reflexivity |].
      simpl in E, Hn. apply andb_true_iff in E as [Ed E].
      rewrite (lowerAfter195_caseVariants d1 d2 Ed), (IH t1 t2); [reflexivity | lia | exact E].
    + f_equal.
      * apply Ascii.eqb_eq. now rewrite toLowerChar_caseVariants.
      * apply IH; [lia | exact E].
Qed.

Lemma latin1ToLowerCase_lowersAscii : lowersAscii latin1ToLowerCase.
Proof.
  intros s. induction s as [|c r IH]; [reflexivity |].
  unfold isAscii. simpl. intros [Hc Hr]%andb_true_iff.
  destruct (Ascii.eqb c "195") eqn:E.
  - apply Ascii.eqb_eq in E. subst c. discriminate Hc.
  - now rewrite (IH Hr).
Qed.

(** On the store of the worked run: two interactions whose statuses are
    [Open] and [OPEN], and two purchases, one dated [03-JAN-2024]; and, with
    the lower-casing that knows Latin-1, on a status outside ASCII. *)
Lemma filters_ignore_ascii_case_witness :
  (equalUpToAsciiCase "Open" "open" = true /\
   filterByStatus toLowerCase "Open" busyStore =
     filterByStatus toLowerCase "open" busyStore /\
   length (filterByStatus toLowerCase "open" busyStore) = 2%nat /\
   In (interactionOf callId firstContact)
      (filterByStatus toLowerCase "Open" busyStore) /\
   In (interactionOf secondCallId secondContact)
      (filterByStatus toLowerCase "Open" busyStore)) /\
  (equalUpToAsciiCase "03-Jan-2024" "03-jan-2024" = true /\
   getPurchasesByDate toLowerCase "03-Jan-2024" busyStore =
     getPurchasesByDate toLowerCase "03-jan-2024" busyStore /\
   getPurchasesByDate toLowerCase "03-jan-2024" busyStore =
     [purchaseOf janOrderId janOrder] /\
   In (purchaseOf janOrderId janOrder)
      (getPurchasesByDate toLowerCase "03-Jan-2024" busyStore)) /\
  (equalUpToAsciiCase "éTuDe" "étude" = true /\
   filterByStatus latin1ToLowerCase "éTuDe" etudeStore =
     filterByStatus latin1ToLowerCase "étude" etudeStore /\
   filterByStatus latin1ToLowerCase "étude" etudeStore =
     [interactionOf etudeId etude] /\
   In (interactionOf etudeId etude)
      (filterByStatus latin1ToLowerCase "éTuDe" etudeStore)).
Proof.
  pose proof (filters_ignore_ascii_case toLowerCase toLowerCase_ignoresAsciiCase
                toLowerCase_lowersAscii "Open" "open" busyStore eq_refl)
    as (HS & _ & _ & _ & HSin & _ & _).
  pose proof (filters_ignore_ascii_case toLowerCase toLowerCase_ignoresAsciiCase
                toLowerCase_lowersAscii "03-Jan-2024" "03-jan-2024" busyStore eq_refl)
    as (_ & HD & _ & _ & _ & HDin & _).
  pose proof (filters_ignore_ascii_case latin1ToLowerCase
                latin1ToLowerCase_ignoresAsciiCase latin1ToLowerCase_lowersAscii
                "éTuDe" "étude" etudeStore eq_refl)
    as (HE & _ & HEin & _).
  split; [| split].
  - split; [reflexivity |]. split; [exact HS |].
    split; [vm_compute; reflexivity |]. split.
    + apply (HSin _ callId); vm_compute; reflexivity.
    + apply (HSin _ secondCallId); vm_compute; reflexivity.
  - split; [reflexivity |]. split; [exact HD |].
    split; [vm_compute; reflexivity |].
    apply (HDin _ janOrderId); vm_compute; reflexivity.
  - split; [reflexivity |]. split; [exact HE |].
    split; [vm_compute; reflexivity |].
    apply (proj2 (HEin _)). split; [exists etudeId |]; vm_compute; reflexivity.
Defined.

Example filterByStatus_closed :
  filterByStatus toLowerCase "Closed" closedStore = [callClosed] /\
  filterByStatus toLowerCase "closed" closedStore = [callClosed] /\
  filterByStatus toLowerCase "open" closedStore = [].
Proof. vm_compute. auto. Qed.

(** With it, the theorem above covers a status outside ASCII: the
    interaction whose status is [ÉTUDE] is listed for [étude]. *)
Example filterByStatus_beyond_ascii :
  filterByStatus latin1ToLowerCase "étude" etudeStore = [interactionOf etudeId etude] /\
  filterByStatus latin1ToLowerCase "Étude" etudeStore = [interactionOf etudeId etude] /\
  filterByStatus latin1ToLowerCase "éTuDe" etudeStore =
    filterByStatus latin1ToLowerCase "étude" etudeStore /\
  filterByStatus latin1ToLowerCase "etude" etudeStore = [].
Proof.
  split; [vm_compute; reflexivity |]. split; [vm_compute; reflexivity |].
  split; [| vm_compute; reflexivity].
  apply (filters_ignore_ascii_case_aux latin1ToLowerCase
           latin1ToLowerCase_ignoresAsciiCase).
  reflexivity.
Qed.

Example equalUpToAsciiCase_examples :
  equalUpToAsciiCase "Closed" "cLOSED" = true /\
  equalUpToAsciiCase "Closed" "Close" = false /\
  equalUpToAsciiCase "@" "`" = false /\
  equalUpToAsciiCase "[" "{" = false.
Proof. vm_compute. auto. Qed.

(** ** Keys and ids (C10) *)

(** C10: in every store reachable from the empty stores, every key of the
    customer, interaction and purchase stores is the id of the record stored
    under it; and every call keeps it so. *)
Theorem reachable_keys_are_ids
    (sha256_digest : string -> list byte) (st : Storage) :
  reachable sha256_digest st ->
  keysAreIds st /\
  (forall c st0, keysAreIds st0 -> keysAreIds (exec sha256_digest c st0)).
Proof.
  intros Hreach. split; [exact (reachable_keysAreIds _ _ Hreach) |].
  intros c st0. apply exec_keysAreIds.
Qed.

Lemma reachable_keys_are_ids_witness :
  reachable SHA256.digest closedStore /\
  keysAreIds closedStore /\
  (forall c st0, keysAreIds st0 -> keysAreIds (exec SHA256.digest c st0)).
Proof.
  split; [exact closedStore_reachable |].
  exact (reachable_keys_are_ids SHA256.digest closedStore closedStore_reachable).
Defined.

(** ** Keys of the stores are generated identifiers *)

#[local] Arguments toLowerChar : simpl never.

Lemma toLowerChar_hexHigh (b : byte) : toLowerChar (hexHigh b) = hexHigh b.
Proof. destruct b; reflexivity. Qed.

Lemma toLowerChar_hexLow (b : byte) : toLowerChar (hexLow b) = hexLow b.
Proof. destruct b; reflexivity. Qed.

Lemma toLowerChar_variantHigh (b : byte) : toLowerChar (variantHigh b) = variantHigh b.
Proof. destruct b; reflexivity. Qed.

Lemma toLowerChar_variantLow (b : byte) : toLowerChar (variantLow b) = variantLow b.
Proof. destruct b; reflexivity. Qed.

(** A generated identifier is in lower case. *)
Lemma generateUUID_lower
    (sha256_digest : string -> list byte)
    (sha256_digest_length : forall s, length (sha256_digest s) = 32%nat)
    (e : Entropy) :
  toLowerCase (generateUUID sha256_digest e) = generateUUID sha256_digest e.
Proof.
  unfold generateUUID.
  pose proof (sha256_digest_length (timestamp e +:+ hexOfBytes (randomBytes e))) as Hlen.
  destruct (sha256_digest (timestamp e +:+ hexOfBytes (randomBytes e))) as
    [|h0 [|h1 [|h2 [|h3 [|h4 [|h5 [|h6 [|h7 [|h8 [|h9 [|h10 [|h11 [|h12
    [|h13 [|h14 [|h15 [|h16 [|h17 [|h18 [|h19 [|h20 [|h21 [|h22 [|h23 [|h24
    [|h25 [|h26 [|h27 [|h28 [|h29 [|h30 [|h31 [|?
    ?]]]]]]]]]]]]]]]]]]]]]]]]]]]]]]]]];
    try discriminate Hlen.
  clear Hlen.
  unfold hexOfBytes. simpl map. rewrite !hexOfByte_digits.
  simpl nth. rewrite variant_digits.
  unfold substr. simpl.
  rewrite !toLowerChar_hexHigh, !toLowerChar_hexLow, toLowerChar_variantHigh,
    toLowerChar_variantLow.
  reflexivity.
Qed.

Lemma emptyStorage_keysGenerated (sha256_digest : string -> list byte) :
  keysGenerated sha256_digest emptyStorage.
Proof.
  repeat apply conj; intros k x H; simpl in H; rewrite lookup_empty in H;
    discriminate.
Qed.

(** Inserting under a generated key, or under a key already there. *)
Lemma insert_generated {V : Type} (P : string -> Prop) (m : gmap string V)
    (i : string) (v : V) :
  P i -> (forall k x, m !! k = Some x -> P k) ->
  forall k x, <[i := v]> m !! k = Some x -> P k.
Proof.
  intros Hi Hm k x [[<- _] | [_ Hk]]%lookup_insert_Some; [exact Hi | eauto].
Qed.

Lemma delete_generated {V : Type} (P : string -> Prop) (m : gmap string V)
    (i : string) :
  (forall k x, m !! k = Some x -> P k) ->
  forall k x, delete i m !! k = Some x -> P k.
Proof. intros Hm k x [_ Hk]%lookup_delete_Some. eauto. Qed.

Lemma exec_keysGenerated
    (sha256_digest : string -> list byte) (c : Call) (st : Storage) :
  keysAreIds st -> keysGenerated sha256_digest st ->
  keysGenerated sha256_digest (exec sha256_digest c st).
Proof.
  intros (Kc & Ki & Kp) Hst. pose proof Hst as (Hc & Hi & Hp).
  destruct c as [e p | p | id | e cid p | p | id | e cid p | p | id]; unfold exec.
  - unfold addCustomer. destruct (negb (isValidPayload p)); [exact Hst |].
    split; [| split; assumption]. simpl.
    apply insert_generated; [eauto | exact Hc].
  - unfold updateCustomer.
    destruct (containsKey (customerStorage st) (Customer.id p)) eqn:Hin;
      [| exact Hst].
    apply containsKey_true in Hin as [old Hold].
    split; [| split; assumption]. simpl.
    apply insert_generated; [eauto | exact Hc].
  - unfold deleteCustomer. destruct (negb (isValidUUID id)); [exact Hst |].
    assert (keysGenerated sha256_digest
              (withCustomers (delete id (customerStorage st)) st)).
    { split; [| split; assumption]. simpl. apply delete_generated. exact Hc. }
    destruct (customerStorage st !! id); assumption.
  - unfold addInteraction. destruct (negb (isValidUUID cid)); [exact Hst |].
    destruct (negb (isValidPayload p)); [exact Hst |].
    destruct (customerStorage st !! cid) as [found|] eqn:Hfound; [| exact Hst].
    simpl. split; [| split; [| assumption]]; simpl.
    + apply insert_generated; [| exact Hc]. rewrite (Kc _ _ Hfound). eauto.
    + apply insert_generated; [eauto | exact Hi].
  - unfold updateInteraction.
    destruct (containsKey (interactionStorage st) (Interaction.id p)) eqn:Hin;
      [| exact Hst].
    apply containsKey_true in Hin as [old Hold].
    split; [assumption | split; [| assumption]]. simpl.
    apply insert_generated; [eauto | exact Hi].
  - unfold deleteInteraction. destruct (negb (isValidUUID id)); [exact Hst |].
    assert (keysGenerated sha256_digest
              (withInteractions (delete id (interactionStorage st)) st)).
    { split; [assumption | split; [| assumption]]. simpl.
      apply delete_generated. exact Hi. }
    destruct (interactionStorage st !! id); assumption.
  - unfold addPurchase. destruct (negb (isValidUUID cid)); [exact Hst |].
    destruct (negb (isValidPayload p)); [exact Hst |].
    destruct (customerStorage st !! cid) as [found|] eqn:Hfound; [| exact Hst].
    simpl. split; [| split; [assumption |]]; simpl.
    + apply insert_generated; [| exact Hc]. rewrite (Kc _ _ Hfound). eauto.
    + apply insert_generated; [eauto | exact Hp].
  - unfold updatePurchase.
    destruct (containsKey (purchaseStorage st) (Purchase.id p)) eqn:Hin;
      [| exact Hst].
    apply containsKey_true in Hin as [old Hold].
    split; [assumption | split; [assumption |]]. simpl.
    apply insert_generated; [eauto | exact Hp].
  - unfold deletePurchase. destruct (negb (isValidUUID id)); [exact Hst |].
    assert (keysGenerated sha256_digest
              (withPurchases (delete id (purchaseStorage st)) st)).
    { split; [assumption | split; [assumption |]]. simpl.
      apply delete_generated. exact Hp. }
    destruct (purchaseStorage st !! id); assumption.
Qed.

Lemma reachable_keysGenerated
    (sha256_digest : string -> list byte) (st : Storage) :
  reachable sha256_digest st -> keysGenerated sha256_digest st.
Proof.
  induction 1 as [| c st Hst IH]; [apply emptyStorage_keysGenerated |].
  apply exec_keysGenerated; [exact (reachable_keysAreIds _ _ Hst) | exact IH].
Qed.

Lemma acmeWithOrder_reachable : reachable SHA256.digest acmeWithOrder.
Proof. exact (reachable_exec SHA256.digest _ _ acmeWithCall_reachable). Qed.

Lemma busyStore_reachable : reachable SHA256.digest busyStore.
Proof.
  exact (reachable_exec SHA256.digest _ _
           (reachable_exec SHA256.digest _ _ acmeWithOrder_reachable)).
Qed.

Lemma isKey_generated
    (sha256_digest : string -> list byte) (k : string) (st : Storage) :
  reachable sha256_digest st -> isKey k st ->
  exists e, k = generateUUID sha256_digest e.
Proof.
  intros Hreach Hk.
  destruct (reachable_keysGenerated _ _ Hreach) as (Hc & Hi & Hp).
  destruct Hk as [[x Hx] | [[x Hx] | [x Hx]]]; eauto.
Qed.

Lemma isKey_valid
    (sha256_digest : string -> list byte)
    (sha256_digest_length : forall s, length (sha256_digest s) = 32%nat)
    (k : string) (st : Storage) :
  reachable sha256_digest st -> isKey k st -> isValidUUID k = true.
Proof.
  intros Hreach Hk. destruct (isKey_generated _ k st Hreach Hk) as [e ->].
  now apply generateUUID_valid.
Qed.

(** X1: in every reachable store, every key of the customer, interaction
    and purchase stores was produced by [generateUUID]; so it has the
    identifier format and is in lower case. *)
Theorem reachable_keys_valid
    (sha256_digest : string -> list byte)
    (sha256_digest_length : forall s, length (sha256_digest s) = 32%nat)
    (k : string) (st : Storage) :
  reachable sha256_digest st ->
  isKey k st ->
  (exists e, k = generateUUID sha256_digest e) /\
  isValidUUID k = true /\
  toLowerCase k = k.
Proof.
  intros Hreach Hk.
  destruct (isKey_generated _ k st Hreach Hk) as [e ->].
  split; [eauto |]. split.
  - now apply generateUUID_valid.
  - now apply generateUUID_lower.
Qed.

Lemma reachable_keys_valid_witness :
  reachable SHA256.digest acmeWithOrder /\
  isKey orderId acmeWithOrder /\
  (exists e, orderId = generateUUID SHA256.digest e) /\
  isValidUUID orderId = true /\
  toLowerCase orderId = orderId.
Proof.
  assert (isKey orderId acmeWithOrder) as Hk
    by (right; right; vm_compute; eauto).
  split; [exact acmeWithOrder_reachable |]. split; [exact Hk |].
  exact (reachable_keys_valid SHA256.digest SHA256_digest_length orderId
           acmeWithOrder acmeWithOrder_reachable Hk).
Defined.

(** ** Every stored record can be read back *)

(** X2: in every reachable store, each record listed by a store is returned
    by its getter when asked for the record's own id: no stored record is
    hidden behind the format check or filed under another key. *)
Theorem stored_records_retrievable
    (sha256_digest : string -> list byte)
    (sha256_digest_length : forall s, length (sha256_digest s) = 32%nat)
    (st : Storage) :
  reachable sha256_digest st ->
  (forall c, In c (getCustomers st) -> getCustomer (Customer.id c) st = Ok c) /\
  (forall i, In i (values (interactionStorage st)) ->
             getInteraction (Interaction.id i) st = Ok i) /\
  (forall p, In p (values (purchaseStorage st)) ->
             getPurchase (Purchase.id p) st = Ok p).
Proof.
  intros Hreach.
  destruct (reachable_keysAreIds _ _ Hreach) as (Kc & Ki & Kp).
  pose proof (fun k => isKey_valid _ sha256_digest_length k st Hreach) as Hvalid.
  unfold getCustomers. repeat apply conj.
  - intros c [k Hk]%In_values. rewrite (Kc _ _ Hk).
    unfold getCustomer. rewrite Hvalid by (left; eauto). simpl. now rewrite Hk.
  - intros i [k Hk]%In_values. rewrite (Ki _ _ Hk).
    unfold getInteraction. rewrite Hvalid by (right; left; eauto). simpl.
    now rewrite Hk.
  - intros p [k Hk]%In_values. rewrite (Kp _ _ Hk).
    unfold getPurchase. rewrite Hvalid by (right; right; eauto). simpl.
    now rewrite Hk.
Qed.

Lemma stored_records_retrievable_witness :
  reachable SHA256.digest acmeWithOrder /\
  (forall c, In c (getCustomers acmeWithOrder) ->
             getCustomer (Customer.id c) acmeWithOrder = Ok c) /\
  (forall i, In i (values (interactionStorage acmeWithOrder)) ->
             getInteraction (Interaction.id i) acmeWithOrder = Ok i) /\
  (forall p, In p (values (purchaseStorage acmeWithOrder)) ->
             getPurchase (Purchase.id p) acmeWithOrder = Ok p).
Proof.
  split; [exact acmeWithOrder_reachable |].
  exact (stored_records_retrievable SHA256.digest SHA256_digest_length
           acmeWithOrder acmeWithOrder_reachable).
Defined.

(** X3: in every reachable store, [getCustomers] lists no two customers with
    the same id, and lists exactly the records of the customer store. *)
Theorem getCustomers_distinct_ids
    (sha256_digest : string -> list byte) (st : Storage) :
  reachable sha256_digest st ->
  NoDup (map Customer.id (getCustomers st)) /\
  (forall c, In c (getCustomers st) <->
             customerStorage st !! Customer.id c = Some c).
Proof.
  intros Hreach.
  destruct (reachable_keysAreIds _ _ Hreach) as (Kc & _ & _).
  unfold getCustomers, values. split.
  - assert (map Customer.id (map_to_list (customerStorage st)).*2 =
            (map_to_list (customerStorage st)).*1) as ->.
    { rewrite <- list_fmap_compose. apply list_fmap_ext.
      intros n [k c] Hn. simpl. apply Kc.
      apply elem_of_map_to_list. eapply list_elem_of_lookup_2. exact Hn. }
    apply NoDup_fst_map_to_list.
  - intros c. fold (values (customerStorage st)). rewrite In_values. split.
    + intros [k Hk]. now rewrite (Kc _ _ Hk).
    + eauto.
Qed.

Lemma getCustomers_distinct_ids_witness :
  reachable SHA256.digest acmeWithOrder /\
  NoDup (map Customer.id (getCustomers acmeWithOrder)) /\
  (forall c, In c (getCustomers acmeWithOrder) <->
             customerStorage acmeWithOrder !! Customer.id c = Some c).
Proof.
  split; [exact acmeWithOrder_reachable |].
  exact (getCustomers_distinct_ids SHA256.digest acmeWithOrder
           acmeWithOrder_reachable).
Defined.

(** ** Purchases *)

(** X4: in every reachable store, for a format-valid id of a stored customer
    and any purchase payload, [addPurchase] succeeds with a new id; the
    customer's embedded purchase list gains the purchase made of that id and
    the payload at its end, and [getPurchase] of the id returns the same
    purchase from the purchase store. *)
Theorem addPurchase_recorded
    (sha256_digest : string -> list byte)
    (sha256_digest_length : forall s, length (sha256_digest s) = 32%nat)
    (e : Entropy) (customerId : string) (payload : PurchasePayload.t)
    (st : Storage) :
  reachable sha256_digest st ->
  isValidUUID customerId = true ->
  is_Some (customerStorage st !! customerId) ->
  exists newId st',
    addPurchase sha256_digest e customerId payload st = (Ok newId, st') /\
    getCustomerPurchases customerId st' =
      getCustomerPurchases customerId st ++ [purchaseOf newId payload] /\
    getPurchase newId st' = Ok (purchaseOf newId payload) /\
    getCustomerInteractions customerId st' = getCustomerInteractions customerId st.
Proof.
  intros Hreach Hid [found Hfound].
  destruct (reachable_keysAreIds _ _ Hreach) as (Hkeys & _ & _).
  pose proof (generateUUID_valid _ sha256_digest_length e) as Hnew.
  unfold addPurchase. rewrite Hid, Hfound. simpl negb. cbv iota zeta.
  eexists _, _. split; [reflexivity |].
  unfold getCustomerPurchases, getCustomerInteractions, getPurchase, purchaseOf.
  simpl. rewrite Hid, Hnew, Hfound. simpl.
  rewrite (Hkeys _ _ Hfound), !lookup_insert_eq. simpl.
  repeat apply conj; reflexivity.
Qed.

Lemma addPurchase_recorded_witness :
  reachable SHA256.digest acmeWithCall /\
  isValidUUID acmeId = true /\
  is_Some (customerStorage acmeWithCall !! acmeId) /\
  exists newId st',
    addPurchase SHA256.digest entropy3 acmeId firstOrder acmeWithCall =
      (Ok newId, st') /\
    getCustomerPurchases acmeId st' =
      getCustomerPurchases acmeId acmeWithCall ++ [purchaseOf newId firstOrder] /\
    getPurchase newId st' = Ok (purchaseOf newId firstOrder) /\
    getCustomerInteractions acmeId st' = getCustomerInteractions acmeId acmeWithCall.
Proof.
  assert (isValidUUID acmeId = true) as Hid by (vm_compute; reflexivity).
  assert (is_Some (customerStorage acmeWithCall !! acmeId)) as Hin
    by (vm_compute; eauto).
  split; [exact acmeWithCall_reachable |].
  split; [exact Hid |]. split; [exact Hin |].
  exact (addPurchase_recorded SHA256.digest SHA256_digest_length entropy3
           acmeId firstOrder acmeWithCall acmeWithCall_reachable Hid Hin).
Defined.

Lemma updatePurchase_leaves_customers_witness :
  is_Some (purchaseStorage acmeWithOrder !! Purchase.id orderRevised) /\
  exists st',
    updatePurchase orderRevised acmeWithOrder = (Ok orderRevised, st') /\
    purchaseStorage st' =
      <[Purchase.id orderRevised := orderRevised]> (purchaseStorage acmeWithOrder) /\
    customerStorage st' = customerStorage acmeWithOrder /\
    interactionStorage st' = interactionStorage acmeWithOrder /\
    (forall customerId,
       getCustomerPurchases customerId st' =
       getCustomerPurchases customerId acmeWithOrder).
Proof.
  assert (is_Some (purchaseStorage acmeWithOrder !! Purchase.id orderRevised))
    as Hin by (vm_compute; eauto).
  split; [exact Hin |].
  exact (updatePurchase_leaves_customers orderRevised acmeWithOrder Hin).
Defined.

(** ** Deletions do not cascade *)

(** X6: in every reachable store, [deleteInteraction] of a format-valid id
    in the interaction store answers with that id and removes the standalone
    record only: [getInteraction] is then NotFound, while the customer store
    is untouched, so the copy embedded in the owning customer is still
    listed. *)
Theorem deleteInteraction_keeps_embedded
    (sha256_digest : string -> list byte) (id : string) (st : Storage) :
  reachable sha256_digest st ->
  isValidUUID id = true ->
  is_Some (interactionStorage st !! id) ->
  exists st',
    deleteInteraction id st = (Ok id, st') /\
    getInteraction id st' =
      Err (NotFound ("Interaction with id=" +:+ id +:+ " not found")) /\
    customerStorage st' = customerStorage st /\
    purchaseStorage st' = purchaseStorage st /\
    (forall customerId,
       getCustomerInteractions customerId st' = getCustomerInteractions customerId st).
Proof.
  intros Hreach Hid [i Hi].
  destruct (reachable_keysAreIds _ _ Hreach) as (_ & Hkeys & _).
  unfold deleteInteraction. rewrite Hid, Hi. simpl negb. cbv iota zeta.
  rewrite (Hkeys _ _ Hi). eexists. split; [reflexivity |].
  unfold getInteraction. rewrite Hid. simpl. rewrite lookup_delete_eq.
  repeat apply conj; reflexivity.
Qed.

Lemma deleteInteraction_keeps_embedded_witness :
  reachable SHA256.digest closedStore /\
  isValidUUID callId = true /\
  is_Some (interactionStorage closedStore !! callId) /\
  exists st',
    deleteInteraction callId closedStore = (Ok callId, st') /\
    getInteraction callId st' =
      Err (NotFound ("Interaction with id=" +:+ callId +:+ " not found")) /\
    customerStorage st' = customerStorage closedStore /\
    purchaseStorage st' = purchaseStorage closedStore /\
    (forall customerId,
       getCustomerInteractions customerId st' =
       getCustomerInteractions customerId closedStore).
Proof.
  assert (isValidUUID callId = true) as Hid by (vm_compute; reflexivity).
  assert (is_Some (interactionStorage closedStore !! callId)) as Hin
    by (vm_compute; eauto).
  split; [exact closedStore_reachable |].
  split; [exact Hid |]. split; [exact Hin |].
  exact (deleteInteraction_keeps_embedded SHA256.digest callId closedStore
           closedStore_reachable Hid Hin).
Defined.

Example deleted_interaction_still_embedded :
  getCustomerInteractions acmeId (snd (deleteInteraction callId closedStore)) =
  [interactionOf callId firstContact].
Proof. vm_compute. reflexivity. Qed.

(** X7: the same for purchases: [deletePurchase] removes the standalone
    record only and the customer's embedded purchase list keeps its copy. *)
Theorem deletePurchase_keeps_embedded
    (sha256_digest : string -> list byte) (id : string) (st : Storage) :
  reachable sha256_digest st ->
  isValidUUID id = true ->
  is_Some (purchaseStorage st !! id) ->
  exists st',
    deletePurchase id st = (Ok id, st') /\
    getPurchase id st' =
      Err (NotFound ("Purchase with id=" +:+ id +:+ " not found")) /\
    customerStorage st' = customerStorage st /\
    interactionStorage st' = interactionStorage st /\
    (forall customerId,
       getCustomerPurchases customerId st' = getCustomerPurchases customerId st).
Proof.
  intros Hreach Hid [p Hp].
  destruct (reachable_keysAreIds _ _ Hreach) as (_ & _ & Hkeys).
  unfold deletePurchase. rewrite Hid, Hp. simpl negb. cbv iota zeta.
  rewrite (Hkeys _ _ Hp). eexists. split; [reflexivity |].
  unfold getPurchase. rewrite Hid. simpl. rewrite lookup_delete_eq.
  repeat apply conj; reflexivity.
Qed.

Lemma deletePurchase_keeps_embedded_witness :
  reachable SHA256.digest acmeWithOrder /\
  isValidUUID orderId = true /\
  is_Some (purchaseStorage acmeWithOrder !! orderId) /\
  exists st',
    deletePurchase orderId acmeWithOrder = (Ok orderId, st') /\
    getPurchase orderId st' =
      Err (NotFound ("Purchase with id=" +:+ orderId +:+ " not found")) /\
    customerStorage st' = customerStorage acmeWithOrder /\
    interactionStorage st' = interactionStorage acmeWithOrder /\
    (forall customerId,
       getCustomerPurchases customerId st' =
       getCustomerPurchases customerId acmeWithOrder).
Proof.
  assert (isValidUUID orderId = true) as Hid by (vm_compute; reflexivity).
  assert (is_Some (purchaseStorage acmeWithOrder !! orderId)) as Hin
    by (vm_compute; eauto).
  split; [exact acmeWithOrder_reachable |].
  split; [exact Hid |]. split; [exact Hin |].
  exact (deletePurchase_keeps_embedded SHA256.digest orderId acmeWithOrder
           acmeWithOrder_reachable Hid Hin).
Defined.

(** X8: [deleteCustomer] removes at most the entry of the given id from the
    customer store and never touches the interaction and purchase stores:
    the standalone records of a deleted customer stay readable and other
    customers are unchanged. *)
Theorem deleteCustomer_keeps_standalone (id : string) (st : Storage) :
  interactionStorage (snd (deleteCustomer id st)) = interactionStorage st /\
  purchaseStorage (snd (deleteCustomer id st)) = purchaseStorage st /\
  (forall j, getInteraction j (snd (deleteCustomer id st)) = getInteraction j st) /\
  (forall j, getPurchase j (snd (deleteCustomer id st)) = getPurchase j st) /\
  (forall k, k <> id ->
     customerStorage (snd (deleteCustomer id st)) !! k = customerStorage st !! k).
Proof.
  unfold deleteCustomer, getInteraction, getPurchase.
  destruct (negb (isValidUUID id)); [repeat apply conj; reflexivity |].
  assert (forall k, k <> id ->
            delete id (customerStorage st) !! k = customerStorage st !! k) as Hne
    by (intros k Hk; apply lookup_delete_ne; congruence).
  destruct (customerStorage st !! id); simpl; repeat apply conj; auto.
Qed.

Example deleted_customer_leaves_orphans :
  getCustomer acmeId (snd (deleteCustomer acmeId acmeWithOrder)) =
    Err (NotFound ("Customer with id=" +:+ acmeId +:+ " not found")) /\
  getInteraction callId (snd (deleteCustomer acmeId acmeWithOrder)) =
    Ok (interactionOf callId firstContact) /\
  getPurchase orderId (snd (deleteCustomer acmeId acmeWithOrder)) =
    Ok (purchaseOf orderId firstOrder).
Proof. vm_compute. auto. Qed.

(** ** Failed calls *)

Lemma withCustomers_same (st : Storage) : withCustomers (customerStorage st) st = st.
Proof. destruct st; reflexivity. Qed.

Lemma withInteractions_same (st : Storage) :
  withInteractions (interactionStorage st) st = st.
Proof. destruct st; reflexivity. Qed.

Lemma withPurchases_same (st : Storage) : withPurchases (purchaseStorage st) st = st.
Proof. destruct st; reflexivity. Qed.

(** X9: a call that answers with an error leaves the three stores as they
    were; this includes the delete handlers, which run [remove] before they
    look at its result. *)
Theorem failed_call_changes_nothing
    (sha256_digest : string -> list byte) (c : Call) (st : Storage) :
  callFails sha256_digest c st = true ->
  exec sha256_digest c st = st.
Proof.
  destruct c as [e p | p | id | e cid p | p | id | e cid p | p | id];
    unfold callFails, exec.
  - unfold addCustomer. destruct (negb (isValidPayload p)); [reflexivity | discriminate].
  - unfold updateCustomer. destruct (negb (containsKey _ _)); [reflexivity | discriminate].
  - unfold deleteCustomer. destruct (negb (isValidUUID id)); [reflexivity |].
    destruct (customerStorage st !! id) eqn:Hid; [discriminate |].
    intros _. simpl. rewrite (delete_id _ _ Hid). apply withCustomers_same.
  - unfold addInteraction. destruct (negb (isValidUUID cid)); [reflexivity |].
    destruct (negb (isValidPayload p)); [reflexivity |].
    destruct (customerStorage st !! cid); [discriminate | reflexivity].
  - unfold updateInteraction. destruct (negb (containsKey _ _)); [reflexivity | discriminate].
  - unfold deleteInteraction. destruct (negb (isValidUUID id)); [reflexivity |].
    destruct (interactionStorage st !! id) eqn:Hid; [discriminate |].
    intros _. simpl. rewrite (delete_id _ _ Hid). apply withInteractions_same.
  - unfold addPurchase. destruct (negb (isValidUUID cid)); [reflexivity |].
    destruct (negb (isValidPayload p)); [reflexivity |].
    destruct (customerStorage st !! cid); [discriminate | reflexivity].
  - unfold updatePurchase. destruct (negb (containsKey _ _)); [reflexivity | discriminate].
  - unfold deletePurchase. destruct (negb (isValidUUID id)); [reflexivity |].
    destruct (purchaseStorage st !! id) eqn:Hid; [discriminate |].
    intros _. simpl. rewrite (delete_id _ _ Hid). apply withPurchases_same.
Qed.

Lemma failed_call_changes_nothing_witness :
  callFails SHA256.digest (CallDeleteInteraction orderId) acmeWithOrder = true /\
  exec SHA256.digest (CallDeleteInteraction orderId) acmeWithOrder = acmeWithOrder.
Proof.
  assert (callFails SHA256.digest (CallDeleteInteraction orderId) acmeWithOrder = true)
    as Hfail by (vm_compute; reflexivity).
  split; [exact Hfail |].
  exact (failed_call_changes_nothing SHA256.digest (CallDeleteInteraction orderId)
           acmeWithOrder Hfail).
Defined.

(** ** Case: the validator ignores it, the stores do not *)

Lemma ascii_forall1 (f : ascii -> bool) :
  forallb (fun x => f (ascii_of_nat x)) (seq 0 256) = true -> forall a, f a = true.
Proof.
  intros H a. rewrite forallb_forall in H.
  assert (In (nat_of_ascii a) (seq 0 256)) as Hin
    by (apply in_seq; pose proof (nat_ascii_bounded a); lia).
  specialize (H _ Hin). now rewrite ascii_nat_embedding in H.
Qed.

Lemma toLowerChar_idempotent (c : ascii) : toLowerChar (toLowerChar c) = toLowerChar c.
Proof.
  apply Ascii.eqb_eq.
  apply (ascii_forall1 (fun c => Ascii.eqb (toLowerChar (toLowerChar c)) (toLowerChar c))).
  vm_compute. reflexivity.
Qed.

Lemma toLowerCase_idempotent (s : string) : toLowerCase (toLowerCase s) = toLowerCase s.
Proof.
  induction s as [|c s IH]; simpl; [reflexivity |].
  now rewrite toLowerChar_idempotent, IH.
Qed.

Lemma equalUpToAsciiCase_toLowerCase (s : string) :
  equalUpToAsciiCase s (toLowerCase s) = true.
Proof.
  rewrite <- toLowerCase_equalUpToAsciiCase, toLowerCase_idempotent.
  apply String.eqb_refl.
Qed.

(** Under the flag [i], the case variants tried for a character are those
    tried for its lower-case form. *)
Lemma candidates_toLowerChar (f : ascii -> bool) (c : ascii) :
  existsb f (RegExp.candidates true (toLowerChar c)) =
  existsb f (RegExp.candidates true c).
Proof.
  destruct c as [[] [] [] [] [] [] [] []]; vm_compute;
    repeat match goal with
           | |- context [if f ?x then _ else _] => destruct (f x)
           end; reflexivity.
Qed.

Lemma atomMatches_caseVariants (a : RegExp.Atom) (x y : ascii) :
  caseVariants x y = true ->
  RegExp.atomMatches true a x = RegExp.atomMatches true a y.
Proof.
  rewrite <- toLowerChar_caseVariants. intros E%Ascii.eqb_eq.
  destruct a as [ch | items]; unfold RegExp.atomMatches.
  - now rewrite <- (candidates_toLowerChar _ x), <- (candidates_toLowerChar _ y), E.
  - now rewrite <- (candidates_toLowerChar _ x), <- (candidates_toLowerChar _ y), E.
Qed.

Lemma matchTerm_caseVariants (a : RegExp.Atom) (n : nat) (s1 s2 : string) :
  equalUpToAsciiCase s1 s2 = true ->
  match RegExp.matchTerm true a n s1, RegExp.matchTerm true a n s2 with
  | Some r1, Some r2 => equalUpToAsciiCase r1 r2 = true
  | None, None => True
  | _, _ => False
  end.
Proof.
  revert s1 s2. induction n as [|n IH]; intros s1 s2 E; simpl; [exact E |].
  destruct s1 as [|x s1], s2 as [|y s2]; simpl in E; try discriminate; [exact I |].
  apply andb_true_iff in E as [Exy E].
  rewrite (atomMatches_caseVariants a x y Exy).
  destruct (RegExp.atomMatches true a y); [now apply IH | exact I].
Qed.

Lemma matchTerms_caseVariants (ts : list RegExp.Term) (s1 s2 : string) :
  equalUpToAsciiCase s1 s2 = true ->
  RegExp.matchTerms true ts s1 = RegExp.matchTerms true ts s2.
Proof.
  revert s1 s2. induction ts as [|tm ts IH]; intros s1 s2 E; simpl.
  - destruct s1, s2; simpl in E; try discriminate; reflexivity.
  - pose proof (matchTerm_caseVariants (RegExp.atom tm) (RegExp.count tm) s1 s2 E) as H.
    destruct (RegExp.matchTerm true (RegExp.atom tm) (RegExp.count tm) s1),
             (RegExp.matchTerm true (RegExp.atom tm) (RegExp.count tm) s2);
      try contradiction; [now apply IH | reflexivity].
Qed.

Lemma isValidUUID_toLowerCase (s : string) :
  isValidUUID (toLowerCase s) = isValidUUID s.
Proof.
  unfold isValidUUID, RegExp.test. simpl RegExp.ignoreCase. symmetry.
  apply matchTerms_caseVariants, equalUpToAsciiCase_toLowerCase.
Qed.

(** X10: [isValidUUID] gives the same answer on two strings that are equal
    up to ASCII case; in particular on a string and its lower-case form. *)
Theorem isValidUUID_ignores_case (s1 s2 : string) :
  equalUpToAsciiCase s1 s2 = true ->
  isValidUUID s1 = isValidUUID s2 /\
  isValidUUID (toLowerCase s1) = isValidUUID s1.
Proof.
  intros E. unfold isValidUUID, RegExp.test. simpl RegExp.ignoreCase. split.
  - now apply matchTerms_caseVariants.
  - apply isValidUUID_toLowerCase.
Qed.

Lemma isValidUUID_ignores_case_witness :
  equalUpToAsciiCase acmeIdUpper acmeId = true /\
  isValidUUID acmeIdUpper = isValidUUID acmeId /\
  isValidUUID (toLowerCase acmeIdUpper) = isValidUUID acmeIdUpper.
Proof.
  split; [reflexivity |].
  apply (isValidUUID_ignores_case acmeIdUpper acmeId). reflexivity.
Defined.

(** X11: lookups compare ids exactly.  In every reachable store, an id that
    is not in lower case but whose lower-case form is a stored customer's id
    passes the format check and is answered with NotFound; it also names no
    customer for the list queries. *)
Theorem getCustomer_case_sensitive
    (sha256_digest : string -> list byte)
    (sha256_digest_length : forall s, length (sha256_digest s) = 32%nat)
    (id : string) (st : Storage) :
  reachable sha256_digest st ->
  is_Some (customerStorage st !! toLowerCase id) ->
  toLowerCase id <> id ->
  isValidUUID id = true /\
  getCustomer id st =
    Err (NotFound ("Customer with id=" +:+ id +:+ " not found")) /\
  getCustomerInteractions id st = [] /\
  getCustomerPurchases id st = [].
Proof.
  intros Hreach Hin Hne.
  pose proof (isKey_valid _ sha256_digest_length (toLowerCase id) st Hreach
                (or_introl Hin)) as Hvalid.
  assert (isValidUUID id = true) as Hid.
  { rewrite <- Hvalid. symmetry. apply isValidUUID_toLowerCase. }
  assert (customerStorage st !! id = None) as Hnone.
  { destruct (customerStorage st !! id) as [c|] eqn:Hc; [| reflexivity].
    destruct (isKey_generated _ id st Hreach) as [e0 ->]; [left; eauto |].
    destruct Hne. now apply generateUUID_lower. }
  unfold getCustomer, getCustomerInteractions, getCustomerPurchases.
  rewrite Hid, Hnone. simpl. repeat apply conj; reflexivity.
Qed.

Lemma getCustomer_case_sensitive_witness :
  reachable SHA256.digest acmeStore /\
  is_Some (customerStorage acmeStore !! toLowerCase acmeIdUpper) /\
  toLowerCase acmeIdUpper <> acmeIdUpper /\
  isValidUUID acmeIdUpper = true /\
  getCustomer acmeIdUpper acmeStore =
    Err (NotFound ("Customer with id=" +:+ acmeIdUpper +:+ " not found")) /\
  getCustomerInteractions acmeIdUpper acmeStore = [] /\
  getCustomerPurchases acmeIdUpper acmeStore = [].
Proof.
  assert (is_Some (customerStorage acmeStore !! toLowerCase acmeIdUpper)) as Hin
    by (vm_compute; eauto).
  assert (toLowerCase acmeIdUpper <> acmeIdUpper) as Hne
    by (vm_compute; discriminate).
  split; [exact acmeStore_reachable |]. split; [exact Hin |]. split; [exact Hne |].
  exact (getCustomer_case_sensitive SHA256.digest SHA256_digest_length
           acmeIdUpper acmeStore acmeStore_reachable Hin Hne).
Defined.

(** ** Creation *)

Lemma length_values {V : Type} (m : gmap string V) : length (values m) = size m.
Proof. unfold values. now rewrite length_fmap, length_map_to_list. Qed.

(** X12: [addCustomer] does not check the generated id against the store.
    When the id it draws is already a key, the call still succeeds and the
    new customer, with empty interaction and purchase lists, replaces the
    stored one: the number of customers does not grow. *)
Theorem addCustomer_collision_overwrites
    (sha256_digest : string -> list byte)
    (e : Entropy) (payload : CustomerPayload.t) (st : Storage) :
  is_Some (customerStorage st !! generateUUID sha256_digest e) ->
  exists customer st',
    addCustomer sha256_digest e payload st = (Ok customer, st') /\
    Customer.id customer = generateUUID sha256_digest e /\
    getCustomerInteractions (Customer.id customer) st' = [] /\
    getCustomerPurchases (Customer.id customer) st' = [] /\
    customerStorage st' !! Customer.id customer = Some customer /\
    length (getCustomers st') = length (getCustomers st).
Proof.
  intros [old Hold]. unfold addCustomer. simpl negb. cbv iota.
  eexists _, _. split; [reflexivity |]. simpl.
  unfold getCustomerInteractions, getCustomerPurchases, getCustomers. simpl.
  rewrite lookup_insert_eq, !length_values, map_size_insert, Hold.
  split; [reflexivity |].
  destruct (isValidUUID (generateUUID sha256_digest e));
    repeat apply conj; reflexivity.
Qed.

Lemma addCustomer_collision_overwrites_witness :
  is_Some (customerStorage acmeWithOrder !! generateUUID SHA256.digest entropy1) /\
  getCustomerInteractions acmeId acmeWithOrder = [interactionOf callId firstContact] /\
  exists customer st',
    addCustomer SHA256.digest entropy1 acme acmeWithOrder = (Ok customer, st') /\
    Customer.id customer = generateUUID SHA256.digest entropy1 /\
    getCustomerInteractions (Customer.id customer) st' = [] /\
    getCustomerPurchases (Customer.id customer) st' = [] /\
    customerStorage st' !! Customer.id customer = Some customer /\
    length (getCustomers st') = length (getCustomers acmeWithOrder).
Proof.
  assert (is_Some (customerStorage acmeWithOrder !! generateUUID SHA256.digest entropy1))
    as Hin by (vm_compute; eauto).
  split; [exact Hin |]. split; [vm_compute; reflexivity |].
  exact (addCustomer_collision_overwrites SHA256.digest entropy1 acme
           acmeWithOrder Hin).
Defined.

(** X13: the payload check rejects no decoded payload, whatever its field
    values: [addCustomer] always succeeds, and [addInteraction] and
    [addPurchase] never answer "Invalid payload". *)
Theorem payload_check_never_rejects
    (sha256_digest : string -> list byte)
    (e : Entropy) (customerId : string) (st : Storage)
    (pc : CustomerPayload.t) (pi : InteractionPayload.t) (pp : PurchasePayload.t) :
  isValidPayload pc = true /\ isValidPayload pi = true /\ isValidPayload pp = true /\
  (exists customer st', addCustomer sha256_digest e pc st = (Ok customer, st')) /\
  fst (addInteraction sha256_digest e customerId pi st) <>
    Err (InvalidPayload "Invalid payload") /\
  fst (addPurchase sha256_digest e customerId pp st) <>
    Err (InvalidPayload "Invalid payload").
Proof.
  split; [reflexivity |]. split; [reflexivity |]. split; [reflexivity |].
  split; [unfold addCustomer; simpl; eauto |].
  unfold addInteraction, addPurchase.
  destruct (isValidUUID customerId); simpl;
    destruct (customerStorage st !! customerId); simpl; split; discriminate.
Qed.

Example addCustomer_empty_fields :
  exists customer st',
    addCustomer SHA256.digest entropy1 (CustomerPayload.Make "" "" "" "") emptyStorage =
      (Ok customer, st').
Proof. eexists _, _. reflexivity. Qed.

(** X14: in every reachable store, a successful [addInteraction] changes one
    customer entry and one interaction entry only: the named customer gains
    the interaction at the end of its list and keeps its other fields, every
    other customer and every other interaction key is as before, and the
    purchase store is untouched. *)
Theorem addInteraction_frame
    (sha256_digest : string -> list byte)
    (e : Entropy) (customerId : string) (payload : InteractionPayload.t)
    (st : Storage) (found : Customer.t) :
  reachable sha256_digest st ->
  isValidUUID customerId = true ->
  customerStorage st !! customerId = Some found ->
  exists newId st',
    addInteraction sha256_digest e customerId payload st = (Ok newId, st') /\
    customerStorage st' !! customerId =
      Some (pushInteraction found (interactionOf newId payload)) /\
    Customer.purchases (pushInteraction found (interactionOf newId payload)) =
      Customer.purchases found /\
    (forall k, k <> customerId ->
       customerStorage st' !! k = customerStorage st !! k) /\
    (forall j, j <> newId ->
       interactionStorage st' !! j = interactionStorage st !! j) /\
    purchaseStorage st' = purchaseStorage st.
Proof.
  intros Hreach Hid Hfound.
  destruct (reachable_keysAreIds _ _ Hreach) as (Hkeys & _ & _).
  unfold addInteraction. rewrite Hid, Hfound. simpl negb. cbv iota zeta.
  eexists _, _. split; [reflexivity |].
  unfold interactionOf. simpl. rewrite (Hkeys _ _ Hfound).
  split; [apply lookup_insert_eq |]. split; [reflexivity |].
  split; [| split; [| reflexivity]].
  - intros k Hk. apply lookup_insert_ne. congruence.
  - intros j Hj. apply lookup_insert_ne. congruence.
Qed.

Lemma addInteraction_frame_witness :
  reachable SHA256.digest acmeStore /\
  isValidUUID acmeId = true /\
  customerStorage acmeStore !! acmeId =
    Some (Customer.Make acmeId "Acme" "Acme Co" "a@acme.com" "555-0100" [] []) /\
  exists newId st',
    addInteraction SHA256.digest entropy2 acmeId firstContact acmeStore =
      (Ok newId, st') /\
    customerStorage st' !! acmeId =
      Some (pushInteraction
              (Customer.Make acmeId "Acme" "Acme Co" "a@acme.com" "555-0100" [] [])
              (interactionOf newId firstContact)) /\
    Customer.purchases
      (pushInteraction
         (Customer.Make acmeId "Acme" "Acme Co" "a@acme.com" "555-0100" [] [])
         (interactionOf newId firstContact)) =
      Customer.purchases
        (Customer.Make acmeId "Acme" "Acme Co" "a@acme.com" "555-0100" [] []) /\
    (forall k, k <> acmeId ->
       customerStorage st' !! k = customerStorage acmeStore !! k) /\
    (forall j, j <> newId ->
       interactionStorage st' !! j = interactionStorage acmeStore !! j) /\
    purchaseStorage st' = purchaseStorage acmeStore.
Proof.
  assert (isValidUUID acmeId = true) as Hid by (vm_compute; reflexivity).
  assert (customerStorage acmeStore !! acmeId =
            Some (Customer.Make acmeId "Acme" "Acme Co" "a@acme.com" "555-0100" [] []))
    as Hfound by (vm_compute; reflexivity).
  split; [exact acmeStore_reachable |]. split; [exact Hid |]. split; [exact Hfound |].
  exact (addInteraction_frame SHA256.digest entropy2 acmeId firstContact acmeStore
           _ acmeStore_reachable Hid Hfound).
Defined.

(** ** Updates *)

(** X15: the update handlers never create an entry: whether they succeed or
    answer NotFound, each store has the same keys before and after. *)
Theorem updates_keep_keys
    (c : Customer.t) (i : Interaction.t) (p : Purchase.t) (st : Storage) :
  dom (customerStorage (snd (updateCustomer c st))) = dom (customerStorage st) /\
  dom (interactionStorage (snd (updateInteraction i st))) =
    dom (interactionStorage st) /\
  dom (purchaseStorage (snd (updatePurchase p st))) = dom (purchaseStorage st).
Proof.
  unfold updateCustomer, updateInteraction, updatePurchase. repeat apply conj.
  - destruct (containsKey (customerStorage st) (Customer.id c)) eqn:H; [| reflexivity].
    apply containsKey_true in H. simpl. now apply dom_insert_lookup_L.
  - destruct (containsKey (interactionStorage st) (Interaction.id i)) eqn:H;
      [| reflexivity].
    apply containsKey_true in H. simpl. now apply dom_insert_lookup_L.
  - destruct (containsKey (purchaseStorage st) (Purchase.id p)) eqn:H; [| reflexivity].
    apply containsKey_true in H. simpl. now apply dom_insert_lookup_L.
Qed.

(** X16: [filterByStatus] reads the interaction store: after a successful
    [updateInteraction], the updated record is listed under its new status,
    whatever the customer's embedded copy says. *)
Theorem filterByStatus_after_update
    (lower : string -> string)
    (lower_ignoresAsciiCase : ignoresAsciiCase lower)
    (payload : Interaction.t) (st : Storage) :
  is_Some (interactionStorage st !! Interaction.id payload) ->
  In payload
     (filterByStatus lower (Interaction.status payload)
        (snd (updateInteraction payload st))) /\
  (forall status,
     equalUpToAsciiCase (Interaction.status payload) status = true ->
     In payload (filterByStatus lower status (snd (updateInteraction payload st)))).
Proof.
  intros Hin. apply containsKey_true in Hin.
  assert (forall status,
            lower (Interaction.status payload) = lower status ->
            In payload
               (filterByStatus lower status (snd (updateInteraction payload st))))
    as Hall.
  { intros status E. unfold updateInteraction. rewrite Hin. simpl.
    unfold filterByStatus. apply filter_In. split.
    - apply In_values. exists (Interaction.id payload). simpl.
      apply lookup_insert_eq.
    - now apply String.eqb_eq. }
  split; [now apply Hall |].
  intros status E. apply Hall. now apply lower_ignoresAsciiCase.
Qed.

Lemma filterByStatus_after_update_witness :
  is_Some (interactionStorage acmeWithCall !! Interaction.id callClosed) /\
  In callClosed
     (filterByStatus toLowerCase (Interaction.status callClosed)
        (snd (updateInteraction callClosed acmeWithCall))) /\
  (forall status,
     equalUpToAsciiCase (Interaction.status callClosed) status = true ->
     In callClosed
        (filterByStatus toLowerCase status
           (snd (updateInteraction callClosed acmeWithCall)))).
Proof.
  assert (is_Some (interactionStorage acmeWithCall !! Interaction.id callClosed))
    as Hin by (vm_compute; eauto).
  split; [exact Hin |].
  exact (filterByStatus_after_update toLowerCase toLowerCase_ignoresAsciiCase
           callClosed acmeWithCall Hin).
Defined.

(** X17: in a reachable store, after [deleteInteraction] of a format-valid
    id, [filterByStatus] lists exactly the interactions it listed before
    whose id is not the deleted one. *)
Theorem filterByStatus_after_delete
    (sha256_digest : string -> list byte)
    (lower : string -> string)
    (id status : string) (st : Storage) (i : Interaction.t) :
  reachable sha256_digest st ->
  isValidUUID id = true ->
  (In i (filterByStatus lower status (snd (deleteInteraction id st))) <->
   Interaction.id i <> id /\ In i (filterByStatus lower status st)).
Proof.
  intros Hreach Hid.
  destruct (reachable_keysAreIds _ _ Hreach) as (_ & Hkeys & _).
  unfold deleteInteraction. rewrite Hid. simpl negb. cbv iota zeta.
  assert (forall st0,
            interactionStorage st0 = delete id (interactionStorage st) ->
            (In i (filterByStatus lower status st0) <->
             Interaction.id i <> id /\ In i (filterByStatus lower status st)))
    as Hgen.
  { intros st0 E. unfold filterByStatus. rewrite !filter_In, !In_values, E. split.
    - intros [[k [Hne Hk]%lookup_delete_Some] Hs].
      rewrite (Hkeys _ _ Hk). split; [congruence | eauto].
    - intros [Hne [[k Hk] Hs]]. split; [| exact Hs].
      exists k. apply lookup_delete_Some. split; [| exact Hk].
      rewrite <- (Hkeys _ _ Hk). congruence. }
  destruct (interactionStorage st !! id); simpl; apply Hgen; reflexivity.
Qed.

(** On the store of the worked run, whose two interactions are both open:
    deleting the first leaves the second, and only the second, listed. *)
Lemma filterByStatus_after_delete_witness :
  reachable SHA256.digest busyStore /\
  isValidUUID callId = true /\
  fst (deleteInteraction callId busyStore) = Ok callId /\
  In (interactionOf callId firstContact) (filterByStatus toLowerCase "open" busyStore) /\
  filterByStatus toLowerCase "open" (snd (deleteInteraction callId busyStore)) =
    [interactionOf secondCallId secondContact] /\
  (In (interactionOf secondCallId secondContact)
      (filterByStatus toLowerCase "open" (snd (deleteInteraction callId busyStore))) <->
   Interaction.id (interactionOf secondCallId secondContact) <> callId /\
   In (interactionOf secondCallId secondContact)
      (filterByStatus toLowerCase "open" busyStore)) /\
  (In (interactionOf callId firstContact)
      (filterByStatus toLowerCase "open" (snd (deleteInteraction callId busyStore))) <->
   Interaction.id (interactionOf callId firstContact) <> callId /\
   In (interactionOf callId firstContact)
      (filterByStatus toLowerCase "open" busyStore)).
Proof.
  assert (isValidUUID callId = true) as Hid by (vm_compute; reflexivity).
  split; [exact busyStore_reachable |]. split; [exact Hid |].
  split; [vm_compute; reflexivity |].
  split; [vm_compute; auto |].
  split; [vm_compute; reflexivity |].
  split.
  - exact (filterByStatus_after_delete SHA256.digest toLowerCase callId "open"
             busyStore _ busyStore_reachable Hid).
  - exact (filterByStatus_after_delete SHA256.digest toLowerCase callId "open"
             busyStore _ busyStore_reachable Hid).
Defined.

(** ** Hexadecimal strings and the bytes an identifier is made of *)

Lemma hexOfBytes_cons (b : byte) (bs : list byte) :
  hexOfBytes (b :: bs) = String (hexHigh b) (String (hexLow b) (hexOfBytes bs)).
Proof.
  unfold hexOfBytes. simpl map. rewrite hexOfByte_digits.
  destruct bs; reflexivity.
Qed.

Lemma hexValue_digits (b : byte) :
  Byte.of_N (16 * hexValue (hexHigh b) + hexValue (hexLow b)) = Some b.
Proof. destruct b; reflexivity. Qed.

(** X18: the hexadecimal string of a byte array has two characters per
    byte, all of them lower-case hexadecimal digits, and determines the
    array: different arrays have different strings. *)
Theorem hexOfBytes_faithful (bs1 bs2 : list byte) :
  String.length (hexOfBytes bs1) = (2 * length bs1)%nat /\
  stringForall isHexDigit (hexOfBytes bs1) = true /\
  toLowerCase (hexOfBytes bs1) = hexOfBytes bs1 /\
  (hexOfBytes bs1 = hexOfBytes bs2 -> bs1 = bs2).
Proof.
  repeat apply conj.
  - induction bs1 as [|b bs IH]; [reflexivity |].
    rewrite hexOfBytes_cons. simpl. rewrite IH. lia.
  - induction bs1 as [|b bs IH]; [reflexivity |].
    rewrite hexOfBytes_cons. simpl.
    now rewrite hexHigh_isHexDigit, hexLow_isHexDigit, IH.
  - induction bs1 as [|b bs IH]; [reflexivity |].
    rewrite hexOfBytes_cons. simpl.
    now rewrite toLowerChar_hexHigh, toLowerChar_hexLow, IH.
  - revert bs2. induction bs1 as [|b bs IH]; intros [|b' bs'].
    + reflexivity.
    + rewrite hexOfBytes_cons. discriminate.
    + rewrite hexOfBytes_cons. discriminate.
    + rewrite !hexOfBytes_cons. intros [= Hh Hl Hrest].
      pose proof (hexValue_digits b) as Hb. rewrite Hh, Hl, hexValue_digits in Hb.
      injection Hb as ->. f_equal. now apply IH.
Qed.

(** X19: an identifier is read off the first 17 bytes of the digest: two
    digests of 32 bytes that agree there give the same identifier. *)
Theorem generateUUID_reads_17_bytes
    (digest1 digest2 : string -> list byte) (e : Entropy) :
  (forall s, length (digest1 s) = 32%nat) ->
  (forall s, length (digest2 s) = 32%nat) ->
  firstn 17 (digest1 (timestamp e +:+ hexOfBytes (randomBytes e))) =
  firstn 17 (digest2 (timestamp e +:+ hexOfBytes (randomBytes e))) ->
  generateUUID digest1 e = generateUUID digest2 e.
Proof.
  intros L1 L2. unfold generateUUID.
  specialize (L1 (timestamp e +:+ hexOfBytes (randomBytes e))).
  specialize (L2 (timestamp e +:+ hexOfBytes (randomBytes e))).
  destruct (digest1 (timestamp e +:+ hexOfBytes (randomBytes e))) as
    [|h0 [|h1 [|h2 [|h3 [|h4 [|h5 [|h6 [|h7 [|h8 [|h9 [|h10 [|h11 [|h12
    [|h13 [|h14 [|h15 [|h16 [|h17 [|h18 [|h19 [|h20 [|h21 [|h22 [|h23 [|h24
    [|h25 [|h26 [|h27 [|h28 [|h29 [|h30 [|h31 [|?
    ?]]]]]]]]]]]]]]]]]]]]]]]]]]]]]]]]];
    try discriminate L1.
  destruct (digest2 (timestamp e +:+ hexOfBytes (randomBytes e))) as
    [|k0 [|k1 [|k2 [|k3 [|k4 [|k5 [|k6 [|k7 [|k8 [|k9 [|k10 [|k11 [|k12
    [|k13 [|k14 [|k15 [|k16 [|k17 [|k18 [|k19 [|k20 [|k21 [|k22 [|k23 [|k24
    [|k25 [|k26 [|k27 [|k28 [|k29 [|k30 [|k31 [|?
    ?]]]]]]]]]]]]]]]]]]]]]]]]]]]]]]]]];
    try discriminate L2.
  clear L1 L2. simpl firstn. intros [= -> -> -> -> -> -> -> -> -> -> -> -> -> -> -> -> ->].
  unfold hexOfBytes. simpl map. rewrite !hexOfByte_digits.
  simpl nth. unfold substr. simpl. reflexivity.
Qed.

Lemma truncatedDigest_length (s : string) : length (truncatedDigest s) = 32%nat.
Proof.
  unfold truncatedDigest. rewrite length_app, length_firstn, SHA256_digest_length.
  reflexivity.
Qed.

Lemma generateUUID_reads_17_bytes_witness :
  SHA256.digest (timestamp entropy1 +:+ hexOfBytes (randomBytes entropy1)) <>
  truncatedDigest (timestamp entropy1 +:+ hexOfBytes (randomBytes entropy1)) /\
  firstn 17 (SHA256.digest (timestamp entropy1 +:+ hexOfBytes (randomBytes entropy1))) =
  firstn 17 (truncatedDigest (timestamp entropy1 +:+ hexOfBytes (randomBytes entropy1))) /\
  generateUUID SHA256.digest entropy1 = generateUUID truncatedDigest entropy1.
Proof.
  assert (firstn 17 (SHA256.digest (timestamp entropy1 +:+ hexOfBytes (randomBytes entropy1))) =
          firstn 17 (truncatedDigest (timestamp entropy1 +:+ hexOfBytes (randomBytes entropy1))))
    as Hprefix by (vm_compute; reflexivity).
  split; [vm_compute; discriminate |]. split; [exact Hprefix |].
  exact (generateUUID_reads_17_bytes SHA256.digest truncatedDigest entropy1
           SHA256_digest_length truncatedDigest_length Hprefix).
Defined.

(** X20: what [addCustomer] returns can be read back at once, from any
    store: the new customer carries the payload's four fields, [getCustomer]
    of its id returns it, and [getCustomers] lists it. *)
Theorem addCustomer_round_trip
    (sha256_digest : string -> list byte)
    (sha256_digest_length : forall s, length (sha256_digest s) = 32%nat)
    (e : Entropy) (payload : CustomerPayload.t) (st : Storage) :
  exists customer st',
    addCustomer sha256_digest e payload st = (Ok customer, st') /\
    Customer.name customer = CustomerPayload.name payload /\
    Customer.company customer = CustomerPayload.company payload /\
    Customer.email customer = CustomerPayload.email payload /\
    Customer.phone customer = CustomerPayload.phone payload /\
    getCustomer (Customer.id customer) st' = Ok customer /\
    In customer (getCustomers st') /\
    interactionStorage st' = interactionStorage st /\
    purchaseStorage st' = purchaseStorage st.
Proof.
  unfold addCustomer. simpl negb. cbv iota.
  eexists _, _. split; [reflexivity |]. simpl.
  do 4 (split; [reflexivity |]).
  unfold getCustomer, getCustomers. simpl.
  rewrite (generateUUID_valid _ sha256_digest_length e). simpl.
  rewrite lookup_insert_eq. split; [reflexivity |].
  split; [| split; reflexivity].
  apply In_values. eexists. apply lookup_insert_eq.
Qed.

Lemma addCustomer_round_trip_witness :
  exists customer st',
    addCustomer SHA256.digest entropy1 acme emptyStorage = (Ok customer, st') /\
    Customer.name customer = CustomerPayload.name acme /\
    Customer.company customer = CustomerPayload.company acme /\
    Customer.email customer = CustomerPayload.email acme /\
    Customer.phone customer = CustomerPayload.phone acme /\
    getCustomer (Customer.id customer) st' = Ok customer /\
    In customer (getCustomers st') /\
    interactionStorage st' = interactionStorage emptyStorage /\
    purchaseStorage st' = purchaseStorage emptyStorage.
Proof.
  exact (addCustomer_round_trip SHA256.digest SHA256_digest_length entropy1 acme
           emptyStorage).
Defined.
